(** * Forja workout player: step sequencer, timing engine, session store,
      cue guard and session label

    A shallow embedding of the workout player of the Forja application
    ([src/pages/Workout/WorkoutPlayer.tsx], [src/lib/workoutSessionStorage.ts],
    [src/lib/workoutAudio.ts]) and the properties its specification states.

    Conventions of the embedding.
    - A JavaScript [number] is an integer of [Z]: set counts, repetitions,
      whole seconds and millisecond timestamps.  [Math.floor (x / 1000)] is
      [x / 1000] on [Z] (floor division) and [Math.ceil (x / 1000)] is
      [ceilDiv x 1000].
    - [T | null] and optional fields are [option T].
    - [a || d] on numbers and strings follows JavaScript truthiness: [null],
      [0] and the empty string are falsy.
    - [localStorage] is a finite map from keys to stored texts. *)

From Stdlib Require Import ZArith List String Ascii Bool Lia.
From stdpp Require Import base option list gmap strings pretty.
Import ListNotations.

Local Open Scope string_scope.
Local Open Scope list_scope.
Local Open Scope Z_scope.

(** ** JavaScript truthiness *)

(** [x || d] for a nullable number. *)
Definition orNum (x : option Z) (d : Z) : Z :=
  match x with
  | Some v => if v =? 0 then d else v
  | None => d
  end.

(** Truthiness of an optional string: [if (s)]. *)
Definition truthyStr (s : option string) : bool :=
  match s with
  | Some v => negb (String.eqb v "")
  | None => false
  end.

(** [s || d] for an optional string. *)
Definition orStr (s : option string) (d : string) : string :=
  match s with
  | Some v => if String.eqb v "" then d else v
  | None => d
  end.

(** [Math.ceil (x / d)] for integers [x] and a positive integer [d]. *)
Definition ceilDiv (x d : Z) : Z := - ((- x) / d).

(** ** Step sequencer ([buildSteps]) *)

Module Sequencer.

Inductive BlockType := WARMUP | STANDARD | FINISHER | CARDIO | REGEN.

Inductive StepKind := COUNTDOWN | WORK | REST.

Definition BlockType_eqb (a b : BlockType) : bool :=
  match a, b with
  | WARMUP, WARMUP | STANDARD, STANDARD | FINISHER, FINISHER
  | CARDIO, CARDIO | REGEN, REGEN => true
  | _, _ => false
  end.

(** The optional [exercise] object joined to a block. *)
Record Exercise := {
  ex_id : string;
  name : string;
  instructions_short : option string
}.

Record RoutineBlock := {
  id : string;
  order_index : Z;
  block_type : BlockType;
  exercise_id : option string;
  sets : option Z;
  reps : option Z;
  seconds_per_rep : option Z;
  work_seconds : option Z;
  rest_seconds : option Z;
  exercise : option Exercise
}.

(** [stepReps] is the field [reps] of the source's [Step]. *)
Record Step := {
  stepIndex : Z;
  kind : StepKind;
  blockType : BlockType;
  exerciseId : option string;
  exerciseName : string;
  durationSec : Z;
  setNumber : option Z;
  totalSets : option Z;
  stepReps : option Z;
  isLastSetOfExercise : option bool
}.

Definition SECONDS_PER_REP : Z := 2.
Definition COUNTDOWN_BETWEEN_EXERCISES : Z := 3.

(** The two mutable locals of [buildSteps]: the [steps] array and the
    [stepIndex] counter. *)
Record BuildState := {
  steps : list Step;
  nextStepIndex : Z
}.

(** [steps.push({ stepIndex: stepIndex++, ... })]. *)
Definition push (mk : Z -> Step) (st : BuildState) : BuildState :=
  {| steps := steps st ++ [mk (nextStepIndex st)];
     nextStepIndex := nextStepIndex st + 1 |}.

(** [const sets = block.sets || 1]. *)
Definition setsOf (block : RoutineBlock) : Z := orNum (sets block) 1.

(** [const reps = block.reps || 0]. *)
Definition repsOf (block : RoutineBlock) : Z := orNum (reps block) 0.

(** [const restSec = block.rest_seconds || 60]. *)
Definition restSecOf (block : RoutineBlock) : Z := orNum (rest_seconds block) 60.

Definition workDurationOf (block : RoutineBlock) : Z :=
  let byReps :=
    if 0 <? repsOf block then repsOf block * SECONDS_PER_REP else 30 in
  match work_seconds block with
  | Some w => if w =? 0 then byReps else w
  | None => byReps
  end.

(** [block.exercise?.name || "Ejercicio"]. *)
Definition exerciseNameOf (block : RoutineBlock) : string :=
  orStr (name <$> exercise block) "Ejercicio".

Definition countdownStep (block : RoutineBlock) (i : Z) : Step :=
  {| stepIndex := i; kind := COUNTDOWN; blockType := block_type block;
     exerciseId := exercise_id block; exerciseName := exerciseNameOf block;
     durationSec := COUNTDOWN_BETWEEN_EXERCISES;
     setNumber := None; totalSets := None; stepReps := None;
     isLastSetOfExercise := None |}.

Definition workStep (block : RoutineBlock) (setNum : Z) (i : Z) : Step :=
  {| stepIndex := i; kind := WORK; blockType := block_type block;
     exerciseId := exercise_id block; exerciseName := exerciseNameOf block;
     durationSec := workDurationOf block;
     setNumber := Some setNum; totalSets := Some (setsOf block);
     stepReps := if 0 <? repsOf block then Some (repsOf block) else None;
     isLastSetOfExercise := Some (setNum =? setsOf block) |}.

Definition restStep (block : RoutineBlock) (i : Z) : Step :=
  {| stepIndex := i; kind := REST; blockType := block_type block;
     exerciseId := exercise_id block; exerciseName := exerciseNameOf block;
     durationSec := restSecOf block;
     setNumber := None; totalSets := None; stepReps := None;
     isLastSetOfExercise := None |}.

(** The values [1, 2, ..., sets] the inner [for] loop runs through (none
    when [sets < 1]). *)
Definition setNumbers (n : Z) : list Z :=
  map Z.of_nat (seq 1 (Z.to_nat n)).

(** Body of the inner loop, for one [setNum].  [nextBlock] is
    [activeBlocks[blockIdx + 1]]; it is only read when the block is not the
    last one, where it is defined. *)
Definition setBody (block : RoutineBlock) (isLastBlock : bool)
    (nextBlock : option RoutineBlock) (st : BuildState) (setNum : Z)
    : BuildState :=
  let isLastSet := setNum =? setsOf block in
  let st1 := push (workStep block setNum) st in
  let st2 :=
    if negb isLastSet && (0 <? restSecOf block)
    then push (restStep block) st1 else st1 in
  if isLastSet && negb isLastBlock then
    match nextBlock with
    | Some nb =>
        let st3 :=
          if 0 <? restSecOf block then push (restStep block) st2 else st2 in
        push (countdownStep nb) st3
    | None => st2
    end
  else st2.

(** Body of the outer loop, for one [blockIdx]. *)
Definition blockBody (activeBlocks : list RoutineBlock) (st : BuildState)
    (blockIdx : nat) : BuildState :=
  match activeBlocks !! blockIdx with
  | None => st
  | Some block =>
      let isFirstBlock := Nat.eqb blockIdx 0 in
      let isLastBlock := Nat.eqb blockIdx (length activeBlocks - 1) in
      let st0 := if isFirstBlock then push (countdownStep block) st else st in
      fold_left (setBody block isLastBlock (activeBlocks !! S blockIdx))
        (setNumbers (setsOf block)) st0
  end.

(** [skipWarmup ? blocks.filter(b => b.block_type !== "WARMUP") : blocks]. *)
Definition activeBlocksOf (blocks : list RoutineBlock) (skipWarmup : bool)
    : list RoutineBlock :=
  if skipWarmup
  then List.filter (fun b => negb (BlockType_eqb (block_type b) WARMUP)) blocks
  else blocks.

Definition buildSteps (blocks : list RoutineBlock) (skipWarmup : bool)
    : list Step :=
  let activeBlocks := activeBlocksOf blocks skipWarmup in
  if Nat.eqb (length activeBlocks) 0 then []
  else
    steps (fold_left (blockBody activeBlocks)
             (seq 0 (length activeBlocks))
             {| steps := []; nextStepIndex := 0 |}).

(** Total nominal duration of a step sequence. *)
Definition totalDuration (l : list Step) : Z :=
  fold_right (fun s acc => durationSec s + acc) 0 l.

(** The routine of the specification's scenario: one STANDARD block with
    three sets of ten repetitions and sixty seconds of rest; everything the
    scenario leaves open is a parameter. *)
Definition scenarioBlock (bid : string) (oi : Z) (exid : option string)
    (spr : option Z) (ex : option Exercise) : RoutineBlock :=
  {| id := bid; order_index := oi; block_type := STANDARD;
     exercise_id := exid; sets := Some 3; reps := Some 10;
     seconds_per_rep := spr; work_seconds := None; rest_seconds := Some 60;
     exercise := ex |}.

(** *** Notions used to state and prove the properties

    Append-only computations.

    Every piece of [buildSteps] only pushes onto [steps], and reads the
    state only through the counter.  [Frames f] says so: running [f] on a
    state is running it on the empty array with the same counter and
    appending the outcome. *)

Definition fresh (k : Z) : BuildState := {| steps := []; nextStepIndex := k |}.

Definition Frames (f : BuildState -> BuildState) : Prop :=
  forall st,
    f st = {| steps := steps st ++ steps (f (fresh (nextStepIndex st)));
              nextStepIndex := nextStepIndex (f (fresh (nextStepIndex st))) |}.

(** The closing run of a block that is not the last one: the REST step
    (only with a positive rest value), then the COUNTDOWN of the next
    block. *)
Definition transitionSteps (b nb : RoutineBlock) (k : Z) : list Step :=
  if 0 <? restSecOf b
  then [restStep b k; countdownStep nb (k + 1)]
  else [countdownStep nb k].

(** The counter is the length of the array, and every step carries its
    position. *)
Definition Indexed (st : BuildState) : Prop :=
  nextStepIndex st = Z.of_nat (length (steps st))
  /\ forall (i : nat) s, steps st !! i = Some s -> stepIndex s = Z.of_nat i.

(** A step maker that stores the index it is given. *)
Definition KeepsIndex (mk : Z -> Step) : Prop :=
  forall i, stepIndex (mk i) = i.

(** A bare block: only its type, set count, repetitions and rest value are
    given. *)
Definition bareBlock (bid : string) (ty : BlockType)
    (nsets nreps rest : option Z) : RoutineBlock :=
  {| id := bid; order_index := 0; block_type := ty; exercise_id := None;
     sets := nsets; reps := nreps; seconds_per_rep := None;
     work_seconds := None; rest_seconds := rest; exercise := None |}.

(** Every COUNTDOWN other than the opening one comes right after a REST
    step. *)
Definition countdownOnlyAfterRest (l : list Step) : Prop :=
  forall (i : nat) c,
    l !! S i = Some c -> kind c = COUNTDOWN ->
    exists r, l !! i = Some r /\ kind r = REST.

(** What [buildSteps] can push for a list of active blocks: the COUNTDOWN
    of a block, the WORK step of one of its sets, or its REST step when its
    rest value is positive. *)
Inductive Emitted (activeBlocks : list RoutineBlock) : Step -> Prop :=
| Emitted_countdown b i :
    b ∈ activeBlocks -> Emitted activeBlocks (countdownStep b i)
| Emitted_work b n i :
    b ∈ activeBlocks -> 1 <= n <= setsOf b ->
    Emitted activeBlocks (workStep b n i)
| Emitted_rest b i :
    b ∈ activeBlocks -> 0 < restSecOf b ->
    Emitted activeBlocks (restStep b i).

Definition isWork (s : Step) : bool :=
  match kind s with WORK => true | _ => false end.

(** [steps.filter(s => s.kind === "WORK").length], the player's
    [totalWorkSteps]. *)
Definition totalWorkSteps (l : list Step) : nat :=
  length (List.filter isWork l).

(** Sets the active blocks prescribe: [sets] of each block, none for a
    block whose count is negative. *)
Definition prescribedSets (activeBlocks : list RoutineBlock) : nat :=
  fold_right (fun b acc => (Z.to_nat (setsOf b) + acc)%nat) 0%nat activeBlocks.

(** Checks that every REST step of [l] comes right after a WORK step;
    [prev] is the kind of the step before [l], if any. *)
Fixpoint restsFollowWork (prev : option StepKind) (l : list Step) : bool :=
  match l with
  | [] => true
  | s :: l' =>
      match kind s, prev with
      | REST, Some WORK => restsFollowWork (Some REST) l'
      | REST, _ => false
      | k, _ => restsFollowWork (Some k) l'
      end
  end.

(** Kind of the last step of [l], or [prev] when [l] is empty. *)
Definition lastKind (prev : option StepKind) (l : list Step)
    : option StepKind :=
  match last l with
  | Some s => Some (kind s)
  | None => prev
  end.

(** An append-only computation whose output, wherever it is appended,
    puts REST steps only after WORK steps. *)
Definition RestsOk (f : BuildState -> BuildState) : Prop :=
  forall k p, restsFollowWork p (steps (f (fresh k))) = true.

End Sequencer.

(** ** Session persistence store ([workoutSessionStorage.ts]) *)

Module Storage.

Definition STORAGE_PREFIX : string := "forja_workout_session_".
Definition MAX_SESSION_AGE_MS : Z := 4 * 60 * 60 * 1000.

Inductive PersistedSessionStatus := RUNNING | PAUSED.

Record PersistedWorkoutSession := {
  sessionId : string;
  status : PersistedSessionStatus;
  currentStepIndex : Z;
  skipWarmup : bool;
  stepsSignature : string;
  workoutStartedAtMs : Z;
  totalAccumulatedMs : Z;
  stepStartedAtMs : Z;
  stepOriginalDurationSec : Z;
  stepAccumulatedMs : Z;
  updatedAtMs : Z
}.

(** [generateStepsSignature], on the list of block identifiers. *)
Definition generateStepsSignature (blockIds : list string) (skipWarmup : bool)
    : string :=
  (if skipWarmup then "skip" else "warm") +:+ "_" +:+
  pretty (length blockIds) +:+ "_" +:+ String.concat "," blockIds.

(** *** JSON values and stored texts

    [JSON.parse] and [JSON.stringify] belong to the platform.  A JSON value
    is a tree; an object is a finite map from property names to values, so
    that equality of values is deep equality. *)

#[warnings="-register-all"]
Inductive JsValue :=
| JNull
| JBool (b : bool)
| JNum (n : Z)
| JStr (s : string)
| JArr (items : list JsValue)
| JObj (fields : gmap string JsValue).

(** A text held by [localStorage], described by what [JSON.parse] makes of
    it: a text it rejects with a [SyntaxError] (the empty text among them),
    or a text it accepts, with the value it returns.  [JSON.stringify v] is
    the text [JsonText v]. *)
Inductive StoredText :=
| Unparseable (raw : string)
| JsonText (v : JsValue).

(** Outcome of an expression that may throw. *)
Inductive Completion (A : Type) :=
| Normal (a : A)
| Throw.
Arguments Normal {A} a.
Arguments Throw {A}.

Definition JSON_parse (t : StoredText) : Completion JsValue :=
  match t with
  | Unparseable _ => Throw
  | JsonText v => Normal v
  end.

Definition JSON_stringify (v : JsValue) : StoredText := JsonText v.

(** [!stored] on a stored text: only the empty text is falsy. *)
Definition emptyText (t : StoredText) : bool :=
  match t with
  | Unparseable raw => String.eqb raw ""
  | JsonText _ => false
  end.

(** Reading a property [v.name]: a [TypeError] on [null], [undefined]
    ([None]) when the value has no such property. *)
Definition getProp (v : JsValue) (name : string)
    : Completion (option JsValue) :=
  match v with
  | JNull => Throw
  | JObj fields => Normal (fields !! name)
  | _ => Normal None
  end.

(** [!x] on a property value. *)
Definition falsy (x : option JsValue) : bool :=
  match x with
  | None | Some JNull | Some (JBool false) => true
  | Some (JNum n) => n =? 0
  | Some (JStr s) => String.eqb s ""
  | _ => false
  end.

(** [typeof x === "number"] and [typeof x === "boolean"]. *)
Definition isNumber (x : option JsValue) : bool :=
  match x with Some (JNum _) => true | _ => false end.

Definition isBoolean (x : option JsValue) : bool :=
  match x with Some (JBool _) => true | _ => false end.

Definition statusText (st : PersistedSessionStatus) : string :=
  match st with RUNNING => "RUNNING" | PAUSED => "PAUSED" end.

(** The object a typed record is at run time. *)
Definition toJson (s : PersistedWorkoutSession) : JsValue :=
  JObj (list_to_map
    [ ("sessionId", JStr (sessionId s));
      ("status", JStr (statusText (status s)));
      ("currentStepIndex", JNum (currentStepIndex s));
      ("skipWarmup", JBool (skipWarmup s));
      ("stepsSignature", JStr (stepsSignature s));
      ("workoutStartedAtMs", JNum (workoutStartedAtMs s));
      ("totalAccumulatedMs", JNum (totalAccumulatedMs s));
      ("stepStartedAtMs", JNum (stepStartedAtMs s));
      ("stepOriginalDurationSec", JNum (stepOriginalDurationSec s));
      ("stepAccumulatedMs", JNum (stepAccumulatedMs s));
      ("updatedAtMs", JNum (updatedAtMs s)) ]).

(** Reading a value back as a typed record: it succeeds exactly when the
    value is an object with every field of [PersistedWorkoutSession]
    present and of its declared type (further properties are ignored). *)
Definition fromJson (v : JsValue) : option PersistedWorkoutSession :=
  match v with
  | JObj f =>
      match f !! "sessionId", f !! "status", f !! "currentStepIndex",
            f !! "skipWarmup", f !! "stepsSignature",
            f !! "workoutStartedAtMs", f !! "totalAccumulatedMs",
            f !! "stepStartedAtMs", f !! "stepOriginalDurationSec",
            f !! "stepAccumulatedMs", f !! "updatedAtMs" with
      | Some (JStr sid), Some (JStr st), Some (JNum idx), Some (JBool skip),
        Some (JStr sig), Some (JNum ws), Some (JNum ta), Some (JNum ss),
        Some (JNum sd), Some (JNum sa), Some (JNum up) =>
          let mk status' :=
            {| sessionId := sid; status := status'; currentStepIndex := idx;
               skipWarmup := skip; stepsSignature := sig;
               workoutStartedAtMs := ws; totalAccumulatedMs := ta;
               stepStartedAtMs := ss; stepOriginalDurationSec := sd;
               stepAccumulatedMs := sa; updatedAtMs := up |} in
          if String.eqb st "RUNNING" then Some (mk RUNNING)
          else if String.eqb st "PAUSED" then Some (mk PAUSED)
          else None
      | _, _, _, _, _, _, _, _, _, _, _ => None
      end
  | _ => None
  end.

(** [{ ...data, updatedAtMs: now }]. *)
Definition withUpdatedAt (data : PersistedWorkoutSession) (now : Z)
    : PersistedWorkoutSession :=
  {| sessionId := sessionId data; status := status data;
     currentStepIndex := currentStepIndex data;
     skipWarmup := skipWarmup data; stepsSignature := stepsSignature data;
     workoutStartedAtMs := workoutStartedAtMs data;
     totalAccumulatedMs := totalAccumulatedMs data;
     stepStartedAtMs := stepStartedAtMs data;
     stepOriginalDurationSec := stepOriginalDurationSec data;
     stepAccumulatedMs := stepAccumulatedMs data;
     updatedAtMs := now |}.

(** *** The store

    [localStorage] is a finite map from keys to texts.  [now] is the value
    of [Date.now ()] at the call.  [saveWorkoutSession] is the save whose
    write the platform accepts; [saveWorkoutSessionOn] leaves open whether
    it does. *)

Definition isSessionStale (now updatedAtMs maxAgeMs : Z) : bool :=
  maxAgeMs <? now - updatedAtMs.

Definition getStorageKey (sessionId : string) : string :=
  STORAGE_PREFIX +:+ sessionId.

Definition clearWorkoutSession (sessionId : string)
    (ls : gmap string StoredText) : gmap string StoredText :=
  delete (getStorageKey sessionId) ls.

(** The validation of [loadWorkoutSession]: [true] when the parsed value is
    rejected.  Reading a property of [null] throws. *)
Definition invalidSession (parsed : JsValue) : Completion bool :=
  match parsed with
  | JNull => Throw
  | _ =>
      let prop name :=
        match getProp parsed name with Normal x => x | Throw => None end in
      Normal
        (falsy (prop "sessionId")
         || falsy (prop "status")
         || negb (isNumber (prop "currentStepIndex"))
         || negb (isBoolean (prop "skipWarmup"))
         || falsy (prop "stepsSignature")
         || negb (isNumber (prop "workoutStartedAtMs"))
         || negb (isNumber (prop "updatedAtMs")))
  end.

(** [loadWorkoutSession]: the value returned ([None] is [null]) and the
    store it leaves.  Whatever is thrown inside the [try] is caught and
    answered with [null]; the store is then as it was. *)
Definition loadWorkoutSession (now : Z) (sessionId : string)
    (ls : gmap string StoredText)
    : option JsValue * gmap string StoredText :=
  match ls !! getStorageKey sessionId with
  | None => (None, ls)
  | Some stored =>
      if emptyText stored then (None, ls)
      else
        match JSON_parse stored with
        | Throw => (None, ls)
        | Normal parsed =>
            match invalidSession parsed with
            | Throw => (None, ls)
            | Normal true => (None, clearWorkoutSession sessionId ls)
            | Normal false =>
                match getProp parsed "updatedAtMs" with
                | Normal (Some (JNum updatedAt)) =>
                    if isSessionStale now updatedAt MAX_SESSION_AGE_MS
                    then (None, clearWorkoutSession sessionId ls)
                    else (Some parsed, ls)
                | _ => (None, ls)
                end
            end
        end
  end.

Definition saveWorkoutSession (now : Z) (sessionId : string)
    (data : PersistedWorkoutSession) (ls : gmap string StoredText)
    : gmap string StoredText :=
  let toStore := withUpdatedAt data now in
  <[getStorageKey sessionId := JSON_stringify (toJson toStore)]> ls.

(** [localStorage.setItem]: the platform may refuse the write (a full
    quota); it then throws and the store stays as it was.  [accepted] tells
    whether the write goes through. *)
Definition setItem (accepted : bool) (key : string) (text : StoredText)
    (ls : gmap string StoredText) : Completion (gmap string StoredText) :=
  if accepted then Normal (<[key := text]> ls) else Throw.

(** [saveWorkoutSession] with the outcome of the write left open: what
    [setItem] throws is caught and logged, nothing more. *)
Definition saveWorkoutSessionOn (accepted : bool) (now : Z)
    (sessionId : string) (data : PersistedWorkoutSession)
    (ls : gmap string StoredText) : gmap string StoredText :=
  let toStore := withUpdatedAt data now in
  match setItem accepted (getStorageKey sessionId)
          (JSON_stringify (toJson toStore)) ls with
  | Normal ls' => ls'
  | Throw => ls
  end.

(** *** Time readings *)

Definition calculateStepRemaining (session : PersistedWorkoutSession)
    (nowMs : Z) : Z :=
  let stepDurationMs := stepOriginalDurationSec session * 1000 in
  match status session with
  | PAUSED =>
      let remainingMs := stepDurationMs - stepAccumulatedMs session in
      Z.max 0 (ceilDiv remainingMs 1000)
  | RUNNING =>
      let currentStepElapsedMs :=
        stepAccumulatedMs session + (nowMs - stepStartedAtMs session) in
      let remainingMs := stepDurationMs - currentStepElapsedMs in
      Z.max 0 (ceilDiv remainingMs 1000)
  end.

Definition calculateTotalElapsed (session : PersistedWorkoutSession)
    (nowMs : Z) : Z :=
  match status session with
  | PAUSED => totalAccumulatedMs session / 1000
  | RUNNING =>
      let currentRunMs := nowMs - workoutStartedAtMs session in
      (totalAccumulatedMs session + currentRunMs) / 1000
  end.

(** The snapshots [loadWorkoutSession] accepts on structural grounds: the
    record type already gives every field its type; what the validation
    asks beyond that is a non-empty [sessionId] and [stepsSignature]. *)
Definition structurallyValid (s : PersistedWorkoutSession) : Prop :=
  sessionId s <> "" /\ stepsSignature s <> "".

(** Milliseconds of the current step already run, by status. *)
Definition stepElapsedMs (session : PersistedWorkoutSession) (nowMs : Z) : Z :=
  match status session with
  | RUNNING => stepAccumulatedMs session + (nowMs - stepStartedAtMs session)
  | PAUSED => stepAccumulatedMs session
  end.

(** *** Maintenance ([cleanupStaleSessions]) *)

(** Whether [c] occurs in [s]. *)
Fixpoint hasChar (c : ascii) (s : string) : bool :=
  match s with
  | EmptyString => false
  | String c' s' => Ascii.eqb c c' || hasChar c s'
  end.

Section Cleanup.

(** [Date.now() - parsed.updatedAtMs] converts the property to a number.
    On [undefined], [null], booleans and numbers the conversion is the one
    below ([None] is [NaN]); on strings, arrays and objects it is the
    platform's, taken here as a parameter. *)
Variable toNumberOther : JsValue -> option Z.

Definition toNumber (x : option JsValue) : option Z :=
  match x with
  | None => None
  | Some JNull => Some 0
  | Some (JBool b) => Some (if b then 1 else 0)
  | Some (JNum n) => Some n
  | Some v => toNumberOther v
  end.

(** Whether the inner [try] of the loop pushes the key of a non-empty
    stored text onto [keysToRemove]: the text is stale, or reading it
    throws. *)
Definition staleText (now : Z) (stored : StoredText) : bool :=
  match JSON_parse stored with
  | Throw => true
  | Normal parsed =>
      match getProp parsed "updatedAtMs" with
      | Throw => true
      | Normal x =>
          match toNumber x with
          | Some updatedAt => isSessionStale now updatedAt MAX_SESSION_AGE_MS
          | None => false
          end
      end
  end.

(** Whether [cleanupStaleSessions] removes the entry [key], [stored]. *)
Definition removedByCleanup (now : Z) (key : string) (stored : StoredText)
    : bool :=
  String.prefix STORAGE_PREFIX key
  && negb (emptyText stored)
  && staleText now stored.

Definition cleanupStaleSessions (now : Z) (ls : gmap string StoredText)
    : gmap string StoredText :=
  filter (fun kv => removedByCleanup now kv.1 kv.2 = false) ls.

End Cleanup.

(** What [loadWorkoutSession] makes of the entry found under the key: the
    value it returns and whether it deletes the entry. *)
Definition loadOutcome (now : Z) (entry : option StoredText)
    : option JsValue * bool :=
  match entry with
  | None => (None, false)
  | Some stored =>
      if emptyText stored then (None, false)
      else
        match JSON_parse stored with
        | Throw => (None, false)
        | Normal parsed =>
            match invalidSession parsed with
            | Throw => (None, false)
            | Normal true => (None, true)
            | Normal false =>
                match getProp parsed "updatedAtMs" with
                | Normal (Some (JNum updatedAt)) =>
                    if isSessionStale now updatedAt MAX_SESSION_AGE_MS
                    then (None, true)
                    else (Some parsed, false)
                | _ => (None, false)
                end
            end
        end
  end.

(** No identifier holds a comma. *)
Definition commaFree (ids : list string) : Prop :=
  forall x, x ∈ ids -> hasChar ","%char x = false.

(** *** Sample records *)

(** A session paused 12.5 s into a 30 s step, read at two distant times. *)
Definition pausedSample : PersistedWorkoutSession :=
  {| sessionId := "s1"; status := PAUSED; currentStepIndex := 1;
     skipWarmup := false; stepsSignature := "warm_1_b1";
     workoutStartedAtMs := 1000; totalAccumulatedMs := 15500;
     stepStartedAtMs := 4000; stepOriginalDurationSec := 30;
     stepAccumulatedMs := 12500; updatedAtMs := 16500 |}.

(** A record of the declared type whose [sessionId] is the empty string. *)
Definition emptyIdSample : PersistedWorkoutSession :=
  {| sessionId := ""; status := RUNNING; currentStepIndex := 2;
     skipWarmup := true; stepsSignature := "skip_1_b1";
     workoutStartedAtMs := 1000; totalAccumulatedMs := 0;
     stepStartedAtMs := 4000; stepOriginalDurationSec := 20;
     stepAccumulatedMs := 0; updatedAtMs := 0 |}.

(** A running session saved at 16.5 s and loaded one hour later. *)
Definition runningSample : PersistedWorkoutSession :=
  {| sessionId := "s1"; status := RUNNING; currentStepIndex := 2;
     skipWarmup := true; stepsSignature := "skip_1_b1";
     workoutStartedAtMs := 1000; totalAccumulatedMs := 0;
     stepStartedAtMs := 4000; stepOriginalDurationSec := 20;
     stepAccumulatedMs := 0; updatedAtMs := 0 |}.

(** A record that passes the validation although four timing fields are
    missing. *)
Definition partialRecord : JsValue :=
  JObj (list_to_map
    [ ("sessionId", JStr "s1");
      ("status", JStr "RUNNING");
      ("currentStepIndex", JNum 2);
      ("skipWarmup", JBool false);
      ("stepsSignature", JStr "warm_1_b1");
      ("workoutStartedAtMs", JNum 1000);
      ("updatedAtMs", JNum 16500) ]).

End Storage.

(** ** Timing engine of the player ([WorkoutPlayer.tsx])

    The component's state and refs that carry time, and the handlers that
    change them.  [now] is the value of [Date.now ()] read by the handler.
    The handlers' calls to the store, the cue dispatcher and the backend
    leave these fields alone and are not repeated here. *)

Module Player.

Inductive PlayerStatus := READY | RUNNING | PAUSED | FINISHED | ABORTED.

Definition isRunning (st : PlayerStatus) : bool :=
  match st with RUNNING => true | _ => false end.

Record State := {
  status : PlayerStatus;
  steps : list Sequencer.Step;
  currentStepIndex : nat;
  (* displayed values *)
  stepRemaining : Z;
  totalElapsed : Z;
  (* refs *)
  workoutStartedAtRef : Z;
  totalAccumulatedRef : Z;
  stepStartedAtRef : Z;
  stepOriginalDurationRef : Z;
  stepAccumulatedRef : Z;
  (* [totalElapsedSec] handed to [finalizeWorkoutSession], once finished *)
  finalElapsed : option Z
}.

Definition handleStart (now : Z) (p : State) : State :=
  let first := steps p !! 0%nat in
  {| status := RUNNING;
     steps := steps p;
     currentStepIndex := currentStepIndex p;
     stepRemaining :=
       match first with
       | Some s => Sequencer.durationSec s
       | None => stepRemaining p
       end;
     totalElapsed := totalElapsed p;
     workoutStartedAtRef := now;
     totalAccumulatedRef := 0;
     stepStartedAtRef := now;
     stepOriginalDurationRef :=
       match first with
       | Some s => Sequencer.durationSec s
       | None => stepOriginalDurationRef p
       end;
     stepAccumulatedRef := 0;
     finalElapsed := finalElapsed p |}.

Definition handlePause (now : Z) (p : State) : State :=
  {| status := PAUSED;
     steps := steps p;
     currentStepIndex := currentStepIndex p;
     stepRemaining := stepRemaining p;
     totalElapsed := totalElapsed p;
     workoutStartedAtRef := workoutStartedAtRef p;
     totalAccumulatedRef :=
       totalAccumulatedRef p + (now - workoutStartedAtRef p);
     stepStartedAtRef := stepStartedAtRef p;
     stepOriginalDurationRef := stepOriginalDurationRef p;
     stepAccumulatedRef := stepAccumulatedRef p + (now - stepStartedAtRef p);
     finalElapsed := finalElapsed p |}.

Definition handleResume (now : Z) (p : State) : State :=
  {| status := RUNNING;
     steps := steps p;
     currentStepIndex := currentStepIndex p;
     stepRemaining := stepRemaining p;
     totalElapsed := totalElapsed p;
     workoutStartedAtRef := now;
     totalAccumulatedRef := totalAccumulatedRef p;
     stepStartedAtRef := now;
     stepOriginalDurationRef := stepOriginalDurationRef p;
     stepAccumulatedRef := stepAccumulatedRef p;
     finalElapsed := finalElapsed p |}.

Definition handleFinish (now : Z) (p : State) : State :=
  let finalElapsedMs :=
    if isRunning (status p)
    then totalAccumulatedRef p + (now - workoutStartedAtRef p)
    else totalAccumulatedRef p in
  {| status := FINISHED;
     steps := steps p;
     currentStepIndex := currentStepIndex p;
     stepRemaining := stepRemaining p;
     totalElapsed := totalElapsed p;
     workoutStartedAtRef := workoutStartedAtRef p;
     totalAccumulatedRef := totalAccumulatedRef p;
     stepStartedAtRef := stepStartedAtRef p;
     stepOriginalDurationRef := stepOriginalDurationRef p;
     stepAccumulatedRef := stepAccumulatedRef p;
     finalElapsed := Some (finalElapsedMs / 1000) |}.

Definition goToNextStep (now : Z) (p : State) : State :=
  let nextIndex := S (currentStepIndex p) in
  if (length (steps p) <=? nextIndex)%nat then handleFinish now p
  else
    match steps p !! nextIndex with
    | None => p
    | Some nextStep =>
        {| status := status p;
           steps := steps p;
           currentStepIndex := nextIndex;
           stepRemaining := Sequencer.durationSec nextStep;
           totalElapsed := totalElapsed p;
           workoutStartedAtRef := workoutStartedAtRef p;
           totalAccumulatedRef := totalAccumulatedRef p;
           stepStartedAtRef := now;
           stepOriginalDurationRef := Sequencer.durationSec nextStep;
           stepAccumulatedRef := 0;
           finalElapsed := finalElapsed p |}
    end.

(** The locals [remainingMs] and [remainingCeil] of [tick]. *)
Definition tickRemainingMs (now : Z) (p : State) : Z :=
  let stepElapsedMs := stepAccumulatedRef p + (now - stepStartedAtRef p) in
  let stepDurationMs := stepOriginalDurationRef p * 1000 in
  Z.max 0 (stepDurationMs - stepElapsedMs).

Definition tickRemainingCeil (now : Z) (p : State) : Z :=
  ceilDiv (tickRemainingMs now p) 1000.

(** One animation frame of the loop, which runs while the status is
    RUNNING.  [now] is the clock read by [tick] itself; [now'] is the read
    that follows when the time of the step is up, by [goToNextStep] when it
    advances or by [handleFinish] when it finishes. *)
Definition tick (now now' : Z) (p : State) : State :=
  let totalNowMs := totalAccumulatedRef p + (now - workoutStartedAtRef p) in
  let remainingMs := tickRemainingMs now p in
  let remainingCeil := tickRemainingCeil now p in
  let p1 :=
    {| status := status p;
       steps := steps p;
       currentStepIndex := currentStepIndex p;
       stepRemaining := remainingCeil;
       totalElapsed := totalNowMs / 1000;
       workoutStartedAtRef := workoutStartedAtRef p;
       totalAccumulatedRef := totalAccumulatedRef p;
       stepStartedAtRef := stepStartedAtRef p;
       stepOriginalDurationRef := stepOriginalDurationRef p;
       stepAccumulatedRef := stepAccumulatedRef p;
       finalElapsed := finalElapsed p |} in
  if remainingMs <=? 0 then goToNextStep now' p1 else p1.

(** The props and state [persistCurrentState] reads besides the timing
    fields. *)
Record Props := {
  sessionId : string;
  blocks : list Sequencer.RoutineBlock;
  skipWarmup : bool
}.

(** The record [persistCurrentState] builds and hands to
    [saveWorkoutSession]. *)
Definition persistedData (props : Props) (now : Z)
    (overrideStatus : option Storage.PersistedSessionStatus)
    (overrideStepIndex : option nat) (p : State)
    : Storage.PersistedWorkoutSession :=
  let currentStatus :=
    match overrideStatus with
    | Some st => st
    | None => if isRunning (status p) then Storage.RUNNING else Storage.PAUSED
    end in
  let stepIndex := default (currentStepIndex p) overrideStepIndex in
  let live :=
    isRunning (status p)
    && match overrideStatus with Some _ => false | None => true end in
  {| Storage.sessionId := sessionId props;
     Storage.status := currentStatus;
     Storage.currentStepIndex := Z.of_nat stepIndex;
     Storage.skipWarmup := skipWarmup props;
     Storage.stepsSignature :=
       Storage.generateStepsSignature (map Sequencer.id (blocks props))
         (skipWarmup props);
     Storage.workoutStartedAtMs := workoutStartedAtRef p;
     Storage.totalAccumulatedMs :=
       if live then totalAccumulatedRef p + (now - workoutStartedAtRef p)
       else totalAccumulatedRef p;
     Storage.stepStartedAtMs := stepStartedAtRef p;
     Storage.stepOriginalDurationSec := stepOriginalDurationRef p;
     Storage.stepAccumulatedMs :=
       if live then stepAccumulatedRef p + (now - stepStartedAtRef p)
       else stepAccumulatedRef p;
     Storage.updatedAtMs := now |}.

Definition persistCurrentState (props : Props) (now : Z)
    (overrideStatus : option Storage.PersistedSessionStatus)
    (overrideStepIndex : option nat) (p : State)
    (ls : gmap string Storage.StoredText) : gmap string Storage.StoredText :=
  Storage.saveWorkoutSession now (sessionId props)
    (persistedData props now overrideStatus overrideStepIndex p) ls.

(** *** Check at mount and rehydration *)

(** The effect that runs once at mount: the persisted session it offers for
    rehydration ([setPendingRehydration]), if any, and the store it
    leaves. *)
Definition checkPersisted (props : Props) (now : Z)
    (ls : gmap string Storage.StoredText)
    : option Storage.JsValue * gmap string Storage.StoredText :=
  match Storage.loadWorkoutSession now (sessionId props) ls with
  | (None, ls') => (None, ls')
  | (Some persisted, ls') =>
      let prop name :=
        match Storage.getProp persisted name with
        | Storage.Normal x => x
        | Storage.Throw => None
        end in
      let currentSignature :=
        Storage.generateStepsSignature (map Sequencer.id (blocks props))
          (negb (Storage.falsy (prop "skipWarmup"))) in
      match prop "stepsSignature" with
      | Some (Storage.JStr stored) =>
          if String.eqb stored currentSignature then (Some persisted, ls')
          else (None, Storage.clearWorkoutSession (sessionId props) ls')
      | _ => (None, Storage.clearWorkoutSession (sessionId props) ls')
      end
  end.

(** Outcome of [rehydrateFromPersisted]: the player restored (the function
    returns [true]), with the warm-up choice it takes over; or the
    persisted index refused (it returns [false]).  The source takes a
    negative index as it is; the player state here counts steps from 0, so
    that case is reported apart. *)
Inductive Rehydration :=
| Rehydrated (p : State) (props : Props)
| Refused
| NegativeIndex.

Definition rehydrateFromPersisted (props : Props) (now : Z)
    (persisted : Storage.PersistedWorkoutSession) (p : State)
    (ls : gmap string Storage.StoredText)
    : Rehydration * gmap string Storage.StoredText :=
  let rehydratedSteps :=
    Sequencer.buildSteps (blocks props) (Storage.skipWarmup persisted) in
  if Z.of_nat (length rehydratedSteps) <=? Storage.currentStepIndex persisted
  then (Refused, Storage.clearWorkoutSession (sessionId props) ls)
  else if Storage.currentStepIndex persisted <? 0 then (NegativeIndex, ls)
  else
    (Rehydrated
       {| status := PAUSED;
          steps := rehydratedSteps;
          currentStepIndex := Z.to_nat (Storage.currentStepIndex persisted);
          stepRemaining := Storage.calculateStepRemaining persisted now;
          totalElapsed := Storage.totalAccumulatedMs persisted / 1000;
          workoutStartedAtRef := now;
          totalAccumulatedRef := Storage.totalAccumulatedMs persisted;
          stepStartedAtRef := now;
          stepOriginalDurationRef :=
            Storage.stepOriginalDurationSec persisted;
          stepAccumulatedRef := Storage.stepAccumulatedMs persisted;
          finalElapsed := finalElapsed p |}
       {| sessionId := sessionId props; blocks := blocks props;
          skipWarmup := Storage.skipWarmup persisted |},
     ls).



(** [handleAbort], and the clearing of the store it starts with. *)
Definition handleAbort (props : Props) (p : State)
    (ls : gmap string Storage.StoredText)
    : State * gmap string Storage.StoredText :=
  ({| status := ABORTED;
      steps := steps p;
      currentStepIndex := currentStepIndex p;
      stepRemaining := stepRemaining p;
      totalElapsed := totalElapsed p;
      workoutStartedAtRef := workoutStartedAtRef p;
      totalAccumulatedRef := totalAccumulatedRef p;
      stepStartedAtRef := stepStartedAtRef p;
      stepOriginalDurationRef := stepOriginalDurationRef p;
      stepAccumulatedRef := stepAccumulatedRef p;
      finalElapsed := finalElapsed p |},
   Storage.clearWorkoutSession (sessionId props) ls).

(** The current step lies within the sequence. *)
Definition indexInRange (p : State) : Prop :=
  (currentStepIndex p < length (steps p))%nat.

(** *** Sample players *)

(** Identifiers of the blocks, as [generateStepsSignature] reads them. *)
Definition blockIds (props : Props) : list string :=
  map Sequencer.id (blocks props).

(** A player two seconds into a 20 s step. *)
Definition runningPlayer : State :=
  {| status := RUNNING; steps := []; currentStepIndex := 0;
     stepRemaining := 20; totalElapsed := 0;
     workoutStartedAtRef := 1000; totalAccumulatedRef := 0;
     stepStartedAtRef := 1000; stepOriginalDurationRef := 20;
     stepAccumulatedRef := 0; finalElapsed := None |}.

(** A player at the end of the last step of a one-step sequence. *)
Definition endingPlayer : State :=
  {| status := RUNNING;
     steps := [Sequencer.countdownStep
                 (Sequencer.bareBlock "b" Sequencer.STANDARD None None None) 0];
     currentStepIndex := 0;
     stepRemaining := 1; totalElapsed := 2;
     workoutStartedAtRef := 1000; totalAccumulatedRef := 0;
     stepStartedAtRef := 1000; stepOriginalDurationRef := 3;
     stepAccumulatedRef := 0; finalElapsed := None |}.

(** Props of a one-block routine. *)
Definition sampleProps : Props :=
  {| sessionId := "s1";
     blocks := [Sequencer.bareBlock "b1" Sequencer.STANDARD (Some 2) (Some 10)
                  (Some 45)];
     skipWarmup := false |}.

(** The same session after the routine was given a second block. *)
Definition editedProps : Props :=
  {| sessionId := "s1";
     blocks := [Sequencer.bareBlock "b1" Sequencer.STANDARD (Some 2) (Some 10)
                  (Some 45);
                Sequencer.bareBlock "b2" Sequencer.CARDIO None None None];
     skipWarmup := false |}.

End Player.

(** ** Beep guard of the cue dispatcher ([workoutAudio.ts]) *)

Module Audio.

(** The module variable [lastBeepKey], and the world the cue effects act
    on. *)
Record AudioState (World : Type) := {
  lastBeepKey : string;
  world : World
}.
Arguments lastBeepKey {World} _.
Arguments world {World} _.

Definition beepOnce {World} (key : string) (beepFn : World -> World)
    (st : AudioState World) : AudioState World :=
  if String.eqb key (lastBeepKey st) then st
  else {| lastBeepKey := key; world := beepFn (world st) |}.

Definition resetBeepGuard {World} (st : AudioState World) : AudioState World :=
  {| lastBeepKey := ""; world := world st |}.

(** To count invocations, the world is the log of the effects invoked, and
    the effect passed along with a key writes that key to the log. *)
Inductive Call :=
| BeepOnce (key : string)
| ResetBeepGuard.

Definition emit (key : string) (log : list string) : list string :=
  log ++ [key].

Definition call (st : AudioState (list string)) (c : Call)
    : AudioState (list string) :=
  match c with
  | BeepOnce key => beepOnce key (emit key) st
  | ResetBeepGuard => resetBeepGuard st
  end.

Definition run (calls : list Call) (st : AudioState (list string))
    : AudioState (list string) :=
  fold_left call calls st.

(** How many times the effect of [key] was invoked. *)
Definition invocations (key : string) (st : AudioState (list string)) : nat :=
  count_occ string_dec (world st) key.

(** State of the module when it is loaded. *)
Definition initial : AudioState (list string) :=
  {| lastBeepKey := ""; world := [] |}.

(** The log holds no two equal entries in a row, and ends with the
    remembered key unless it is empty. *)
Definition Settled (st : AudioState (list string)) : Prop :=
  (forall (i : nat) a b,
     world st !! i = Some a -> world st !! S i = Some b -> a <> b)
  /\ (world st = [] \/ last (world st) = Some (lastBeepKey st)).

End Audio.

(** ** Session label handed to the finalize call ([generateLabel]) *)

Module Label.

Inductive Source := recommended | custom.

(** Whether every character of [s] is an ASCII character. *)
Fixpoint isAscii (s : string) : bool :=
  match s with
  | EmptyString => true
  | String c rest => Nat.ltb (nat_of_ascii c) 128 && isAscii rest
  end.

(** [toUpperCase] on one character of an ASCII string: there the source's
    [toUpperCase] changes the letters a..z and nothing else.  On other
    characters the source follows Unicode (it may even give two characters
    for one); day keys that hold such characters are outside this
    embedding, and the properties of the formatted day key are stated for
    ASCII day keys. *)
Definition toUpperCase (c : ascii) : ascii :=
  let n := nat_of_ascii c in
  if Nat.leb 97 n && Nat.leb n 122 then ascii_of_nat (n - 32) else c.

(** [s.split(sep)] for a one-character separator. *)
Fixpoint split (sep : ascii) (s : string) : list string :=
  match s with
  | EmptyString => [EmptyString]
  | String c rest =>
      if Ascii.eqb c sep then EmptyString :: split sep rest
      else
        match split sep rest with
        | w :: ws => String c w :: ws
        | [] => [String c EmptyString]
        end
  end.

(** [w.charAt(0).toUpperCase() + w.slice(1)]. *)
Definition capitalize (w : string) : string :=
  match w with
  | EmptyString => EmptyString
  | String c rest => String (toUpperCase c) rest
  end.

Definition formatDay (dayKey : string) : string :=
  String.concat " " (map capitalize (split "_"%char dayKey)).

Definition generateLabel (source : Source) (programKey dayKey : option string)
    (routineTitle : string) : string :=
  match source with
  | custom => "Custom · " +:+ routineTitle
  | recommended =>
      if truthyStr programKey && truthyStr dayKey then
        default "" programKey +:+ " · " +:+ formatDay (default "" dayKey)
      else if truthyStr programKey then default "" programKey
      else orStr (Some routineTitle) "Entrenamiento"
  end.

(** The label as the specification words it: program metadata first, then
    the custom routine, then the bare title. *)
Definition specLabel (source : Source) (programKey dayKey : option string)
    (routineTitle : string) : string :=
  if truthyStr programKey && truthyStr dayKey then
    default "" programKey +:+ " · " +:+ formatDay (default "" dayKey)
  else
    match source with
    | custom => "Custom · " +:+ routineTitle
    | recommended => routineTitle
    end.

End Label.

(** ** Persisted preferences: sound switch and one-time flags
    ([workoutAudio.ts], [useOneTimeFlag.ts])

    These texts are compared as strings, so here [localStorage] holds the
    texts themselves; reads and writes are taken to succeed. *)

Module Prefs.










(** *** One-time flags *)









End Prefs.

(** ** Properties of the step sequencer *)

Module SequencerProps.
Import Sequencer.

(** *** Append-only computations *)

Lemma Frames_id : Frames (fun st => st).
Proof. intros [l k]; simpl. by rewrite app_nil_r. Qed.

Lemma Frames_push mk : Frames (push mk).
Proof. intros [l k]; reflexivity. Qed.

Lemma Frames_comp f g : Frames f -> Frames g -> Frames (fun st => g (f st)).
Proof.
  intros Hf Hg st.
  rewrite (Hf st), (Hg {| steps := _; nextStepIndex := _ |}); simpl.
  rewrite (Hf (fresh _)); simpl.
  rewrite (Hg {| steps := _; nextStepIndex := _ |}); simpl.
  by rewrite app_assoc.
Qed.

Lemma Frames_if (c : bool) f g :
  Frames f -> Frames g -> Frames (fun st => if c then f st else g st).
Proof. by destruct c. Qed.

Lemma Frames_fold {A} (body : BuildState -> A -> BuildState) (l : list A) :
  (forall a, Frames (fun st => body st a)) ->
  Frames (fun st => fold_left body l st).
Proof.
  intros Hbody. induction l as [|a l IH]; simpl.
  - apply Frames_id.
  - apply (Frames_comp (fun st => body st a) (fun st => fold_left body l st));
      auto.
Qed.

Lemma Frames_setBody block isLastBlock nextBlock setNum :
  Frames (fun st => setBody block isLastBlock nextBlock st setNum).
Proof.
  unfold setBody.
  destruct (setNum =? setsOf block), isLastBlock, (0 <? restSecOf block),
    nextBlock; simpl;
    repeat first
      [ apply Frames_push | apply Frames_id
      | apply (Frames_comp _ (push _)) ].
Qed.

Lemma Frames_blockBody activeBlocks blockIdx :
  Frames (fun st => blockBody activeBlocks st blockIdx).
Proof.
  unfold blockBody. destruct (activeBlocks !! blockIdx) as [block|].
  - apply (Frames_comp
             (fun st => if Nat.eqb blockIdx 0
                        then push (countdownStep block) st else st)
             (fun st => fold_left _ _ st)).
    + apply Frames_if; [apply Frames_push | apply Frames_id].
    + apply Frames_fold. intros a. apply Frames_setBody.
  - apply Frames_id.
Qed.

(** What a framed computation leaves in [steps]. *)
Lemma Frames_steps f st :
  Frames f -> steps (f st) = steps st ++ steps (f (fresh (nextStepIndex st))).
Proof. intros Hf. by rewrite (Hf st). Qed.

Lemma Frames_blocks activeBlocks idxs :
  Frames (fun st => fold_left (blockBody activeBlocks) idxs st).
Proof. apply Frames_fold. intros a. apply Frames_blockBody. Qed.

(** Discharges the side condition of [Frames_steps] for the loops of
    [buildSteps]. *)
Ltac framed :=
  first
    [ apply Frames_blocks
    | apply Frames_blockBody
    | apply Frames_setBody
    | apply Frames_fold; intros ?; framed
    | apply Frames_push
    | apply Frames_id ].

(** *** The inner loop *)

Lemma setNumbers_snoc n : 0 < n -> setNumbers n = setNumbers (n - 1) ++ [n].
Proof.
  intros Hn. unfold setNumbers.
  replace (Z.to_nat n) with (S (Z.to_nat (n - 1))) by lia.
  rewrite seq_S, map_app. simpl. do 3 f_equal. lia.
Qed.

Lemma setNumbers_cons n :
  0 < n -> exists l, setNumbers n = 1 :: l.
Proof.
  intros Hn. unfold setNumbers.
  replace (Z.to_nat n) with (S (Z.to_nat (n - 1))) by lia.
  simpl. eauto.
Qed.

Lemma setBody_last_set block isLastBlock nextBlock st :
  steps (setBody block isLastBlock nextBlock st (setsOf block)) =
    steps st ++
    workStep block (setsOf block) (nextStepIndex st) ::
    (if isLastBlock then []
     else match nextBlock with
          | Some nb => transitionSteps block nb (nextStepIndex st + 1)
          | None => []
          end).
Proof.
  unfold setBody, transitionSteps. rewrite Z.eqb_refl. simpl.
  destruct isLastBlock; simpl; [done|].
  destruct nextBlock as [nb|]; [|done].
  destruct (0 <? restSecOf block); simpl;
    rewrite <- ?app_assoc; simpl; done.
Qed.

Lemma setBody_first_step block isLastBlock nextBlock k setNum :
  exists l,
    steps (setBody block isLastBlock nextBlock (fresh k) setNum) =
      workStep block setNum k :: l.
Proof.
  unfold setBody.
  destruct (setNum =? setsOf block), isLastBlock, (0 <? restSecOf block),
    nextBlock; simpl; eauto.
Qed.

(** *** The outer loop *)

Lemma seq_0_snoc (n : nat) :
  (0 < n)%nat -> seq 0 n = seq 0 (pred n) ++ [pred n].
Proof. destruct n as [|n]; [lia|]. intros _. by rewrite seq_S. Qed.

Lemma buildSteps_active blocks skipWarmup :
  activeBlocksOf blocks skipWarmup <> [] ->
  buildSteps blocks skipWarmup =
    steps (fold_left (blockBody (activeBlocksOf blocks skipWarmup))
             (seq 0 (length (activeBlocksOf blocks skipWarmup))) (fresh 0)).
Proof.
  intros Hne. unfold buildSteps.
  destruct (activeBlocksOf blocks skipWarmup); [done|reflexivity].
Qed.

Lemma buildSteps_nonempty blocks skipWarmup :
  buildSteps blocks skipWarmup <> [] ->
  activeBlocksOf blocks skipWarmup <> [].
Proof.
  unfold buildSteps. intros Hne Hnil. by rewrite Hnil in Hne.
Qed.

(** The first iteration opens with the COUNTDOWN of the first block. *)
Lemma blockBody_first b rest k :
  exists l,
    steps (blockBody (b :: rest) (fresh k) 0) = countdownStep b k :: l.
Proof.
  unfold blockBody. simpl.
  rewrite (Frames_steps (fun st => fold_left _ _ st))
    by framed.
  simpl. eauto.
Qed.

(** An iteration for a block with at least one set closes with the WORK
    step of its last set, followed, when another block comes, by the
    transition to it. *)
Lemma blockBody_closing activeBlocks st blockIdx b :
  activeBlocks !! blockIdx = Some b ->
  0 < setsOf b ->
  exists pre k,
    steps (blockBody activeBlocks st blockIdx) =
      steps st ++ pre ++
      workStep b (setsOf b) k ::
      (if Nat.eqb blockIdx (length activeBlocks - 1) then []
       else match activeBlocks !! S blockIdx with
            | Some nb => transitionSteps b nb (k + 1)
            | None => []
            end).
Proof.
  intros Hb Hsets. unfold blockBody. rewrite Hb.
  rewrite (setNumbers_snoc _ Hsets), fold_left_app. simpl.
  rewrite setBody_last_set.
  set (st0 := if Nat.eqb blockIdx 0 then push (countdownStep b) st else st).
  set (body := setBody b _ _).
  rewrite (Frames_steps (fun s => fold_left body _ s))
    by framed.
  assert (Hst0 : exists l0, steps st0 = steps st ++ l0).
  { unfold st0. destruct (Nat.eqb blockIdx 0); simpl; eauto.
    exists []. by rewrite app_nil_r. }
  destruct Hst0 as [l0 Hl0]. rewrite Hl0.
  exists (l0 ++ steps (fold_left body (setNumbers (setsOf b - 1))
                         (fresh (nextStepIndex st0)))),
         (nextStepIndex (fold_left body (setNumbers (setsOf b - 1)) st0)).
  by rewrite <- !app_assoc.
Qed.

(** An iteration for a block that is not the first one and has at least one
    set opens with the WORK step of set 1. *)
Lemma blockBody_opening activeBlocks k blockIdx b :
  activeBlocks !! S blockIdx = Some b ->
  0 < setsOf b ->
  exists l,
    steps (blockBody activeBlocks (fresh k) (S blockIdx)) =
      workStep b 1 k :: l.
Proof.
  intros Hb Hsets. unfold blockBody. rewrite Hb.
  change (Nat.eqb (S blockIdx) 0) with false.
  destruct (setNumbers_cons _ Hsets) as [l Hl]. rewrite Hl.
  cbn [fold_left].
  rewrite (Frames_steps (fun s => fold_left _ l s))
    by framed.
  destruct (setBody_first_step b
              (Nat.eqb (S blockIdx) (length activeBlocks - 1))
              (activeBlocks !! S (S blockIdx)) k 1) as [l1 Hl1].
  rewrite Hl1. simpl. eauto.
Qed.

(** *** Step indices are positions *)

Lemma Indexed_push mk st : KeepsIndex mk -> Indexed st -> Indexed (push mk st).
Proof.
  intros Hmk [Hn Hs]. split; simpl.
  - rewrite length_app. simpl. lia.
  - intros i s Hi. apply lookup_app_Some in Hi as [Hi|[Hlen Hi]]; [by apply Hs|].
    apply list_lookup_singleton_Some in Hi as [Hi <-].
    rewrite Hmk. lia.
Qed.

Lemma Indexed_setBody block isLastBlock nextBlock st setNum :
  Indexed st -> Indexed (setBody block isLastBlock nextBlock st setNum).
Proof.
  intros Hst. unfold setBody.
  destruct (setNum =? setsOf block), isLastBlock, (0 <? restSecOf block),
    nextBlock; simpl;
    repeat first [ assumption | apply Indexed_push; [by intros i|] ].
Qed.

Lemma Indexed_fold {A} (body : BuildState -> A -> BuildState) (l : list A) st :
  (forall s a, Indexed s -> Indexed (body s a)) ->
  Indexed st -> Indexed (fold_left body l st).
Proof.
  intros Hbody. revert st. induction l as [|a l IH]; simpl; auto.
Qed.

Lemma Indexed_blockBody activeBlocks st blockIdx :
  Indexed st -> Indexed (blockBody activeBlocks st blockIdx).
Proof.
  intros Hst. unfold blockBody.
  destruct (activeBlocks !! blockIdx) as [block|]; [|done].
  apply Indexed_fold; [intros s a; apply Indexed_setBody|].
  destruct (Nat.eqb blockIdx 0); [apply Indexed_push; [by intros i|]|]; done.
Qed.

Lemma buildSteps_stepIndex blocks skipWarmup (i : nat) s :
  buildSteps blocks skipWarmup !! i = Some s -> stepIndex s = Z.of_nat i.
Proof.
  unfold buildSteps.
  destruct (Nat.eqb (length (activeBlocksOf blocks skipWarmup)) 0); [done|].
  apply (Indexed_fold (blockBody _)).
  - intros st a. apply Indexed_blockBody.
  - split; [reflexivity|]. by intros j s'.
Qed.

(** *** Shape of the sequence *)

(** C2, as stated, fails.  With a negative rest value on the first of two
    blocks, the COUNTDOWN of the second block is still emitted, straight
    after the WORK step, with no REST step before it. *)
Lemma buildSteps_countdown_without_rest :
  let a := bareBlock "a" STANDARD (Some 1) (Some 10) (Some (-5)) in
  let b := bareBlock "b" STANDARD (Some 1) (Some 10) (Some 60) in
  buildSteps [a; b] false =
    [countdownStep a 0; workStep a 1 1; countdownStep b 2; workStep b 1 3]
  /\ restSecOf a = -5
  /\ ~ countdownOnlyAfterRest (buildSteps [a; b] false).
Proof.
  cbv zeta. split; [reflexivity|]. split; [reflexivity|].
  intros H. destruct (H 1%nat _ eq_refl eq_refl) as [r [Hr Hk]].
  vm_compute in Hr. injection Hr as <-. discriminate Hk.
Qed.

(** C2, amended.  For two consecutive active blocks [b] and [nb], where [b]
    has at least one set, the sequence holds the WORK step of the last set
    of [b], then the transition, then what [nb] contributes.  The
    transition is the COUNTDOWN of [nb], whatever the rest value of [b]; the
    REST step carrying the rest value of [b] stands immediately before that
    COUNTDOWN exactly when this value is positive.  When [nb] has at least
    one set, the WORK step of its set 1 follows the COUNTDOWN. *)
Theorem buildSteps_transition :
  forall blocks skipWarmup (i : nat) b nb,
    activeBlocksOf blocks skipWarmup !! i = Some b ->
    activeBlocksOf blocks skipWarmup !! S i = Some nb ->
    0 < setsOf b ->
    exists before k after,
      buildSteps blocks skipWarmup =
        before ++ workStep b (setsOf b) k ::
        (if 0 <? restSecOf b
         then [restStep b (k + 1); countdownStep nb (k + 2)]
         else [countdownStep nb (k + 1)]) ++ after
      /\ (0 < setsOf nb ->
          exists k' after', after = workStep nb 1 k' :: after').
Proof.
  intros blocks skipWarmup i b nb Hb Hnb Hsets.
  set (abs := activeBlocksOf blocks skipWarmup) in *.
  assert (Hlen : (S (S i) <= length abs)%nat).
  { apply lookup_lt_Some in Hnb. lia. }
  rewrite buildSteps_active by (intros Hnil; fold abs in Hnil;
                                rewrite Hnil in Hb; discriminate).
  fold abs.
  replace (length abs) with (i + (2 + (length abs - S (S i))))%nat by lia.
  rewrite seq_app, fold_left_app. simpl seq.
  replace (i + (2 + (length abs - S (S i))))%nat with (length abs) by lia.
  cbn [fold_left].
  set (st := fold_left (blockBody abs) (seq 0 i) (fresh 0)).
  rewrite (Frames_steps (fun s => fold_left (blockBody abs) _ s))
    by framed.
  rewrite (Frames_steps (fun s => blockBody abs s (S i)))
    by framed.
  destruct (blockBody_closing abs st i b Hb Hsets) as (pre & k & Hclose).
  rewrite Hclose, Hnb.
  replace (Nat.eqb i (length abs - 1)) with false
    by (symmetry; apply Nat.eqb_neq; lia).
  set (k1 := nextStepIndex (blockBody abs st i)).
  set (rest := steps (fold_left _ _ (fresh _))).
  exists (steps st ++ pre), k, (steps (blockBody abs (fresh k1) (S i)) ++ rest).
  split.
  - unfold transitionSteps. rewrite <- !app_assoc. simpl.
    replace (k + 1 + 1) with (k + 2) by lia.
    destruct (0 <? restSecOf b); simpl; rewrite <- ?app_assoc; reflexivity.
  - intros Hsets'.
    destruct (blockBody_opening abs k1 i nb Hnb Hsets') as [l Hl].
    rewrite Hl. simpl. eauto.
Qed.

Lemma buildSteps_transition_witness :
  let a := bareBlock "a" STANDARD (Some 1) (Some 10) (Some (-5)) in
  let b := bareBlock "b" STANDARD (Some 1) (Some 10) (Some 60) in
  exists before k after,
    buildSteps [a; b] false =
      before ++ workStep a (setsOf a) k ::
      (if 0 <? restSecOf a
       then [restStep a (k + 1); countdownStep b (k + 2)]
       else [countdownStep b (k + 1)]) ++ after
    /\ (0 < setsOf b ->
        exists k' after', after = workStep b 1 k' :: after').
Proof.
  cbv zeta.
  apply (buildSteps_transition
           [bareBlock "a" STANDARD (Some 1) (Some 10) (Some (-5));
            bareBlock "b" STANDARD (Some 1) (Some 10) (Some 60)]
           false 0%nat);
    [reflexivity | reflexivity | vm_compute; reflexivity].
Defined.

(** C9, as stated, fails.  A negative set count on the only block leaves
    the opening COUNTDOWN as the whole sequence, so the sequence is not
    empty and ends with a COUNTDOWN step. *)
Lemma buildSteps_ends_with_countdown :
  let a := bareBlock "a" STANDARD (Some (-1)) (Some 10) (Some 60) in
  buildSteps [a] false = [countdownStep a 0]
  /\ buildSteps [a] false <> []
  /\ ~ (exists s, last (buildSteps [a] false) = Some s /\ kind s = WORK).
Proof.
  cbv zeta. split; [reflexivity|]. split; [discriminate|].
  intros [s [Hs Hk]]. vm_compute in Hs. injection Hs as <-. discriminate Hk.
Qed.

(** C9, amended.  Whenever [buildSteps] returns a non-empty sequence, its
    first step is a COUNTDOWN step with [durationSec = 3]; its last step is
    a WORK step provided the last active block has at least one set, that
    is, its [sets] value is absent, zero or positive. *)
Theorem buildSteps_first_last :
  forall blocks skipWarmup,
    buildSteps blocks skipWarmup <> [] ->
    (exists s, head (buildSteps blocks skipWarmup) = Some s
               /\ kind s = COUNTDOWN /\ durationSec s = 3)
    /\ ((forall b, last (activeBlocksOf blocks skipWarmup) = Some b ->
                   0 < setsOf b) ->
        exists s, last (buildSteps blocks skipWarmup) = Some s
                  /\ kind s = WORK).
Proof.
  intros blocks skipWarmup Hne.
  apply buildSteps_nonempty in Hne.
  rewrite (buildSteps_active _ _ Hne).
  set (abs := activeBlocksOf blocks skipWarmup) in *.
  split.
  - destruct abs as [|b0 rest] eqn:Habs; [done|].
    cbn [length seq fold_left].
    rewrite (Frames_steps (fun s => fold_left (blockBody _) _ s))
      by framed.
    destruct (blockBody_first b0 rest 0) as [l Hl]. rewrite Hl.
    exists (countdownStep b0 0). by repeat split.
  - intros Hsets.
    destruct (last abs) as [b|] eqn:Hlast;
      [|apply last_None in Hlast; contradiction].
    specialize (Hsets b eq_refl).
    rewrite last_lookup in Hlast.
    assert (Hlen : (0 < length abs)%nat) by (apply lookup_lt_Some in Hlast; lia).
    rewrite (seq_0_snoc (length abs)) by lia.
    rewrite fold_left_app. cbn [fold_left].
    destruct (blockBody_closing abs
                (fold_left (blockBody abs) (seq 0 (pred (length abs))) (fresh 0))
                (pred (length abs)) b Hlast Hsets) as (pre & k & Hclose).
    rewrite Hclose.
    replace (Nat.eqb (pred (length abs)) (length abs - 1)) with true
      by (symmetry; apply Nat.eqb_eq; lia).
    exists (workStep b (setsOf b) k). split; [|reflexivity].
    by rewrite !app_assoc, last_snoc.
Qed.

Lemma buildSteps_first_last_witness :
  let a := bareBlock "a" WARMUP (Some 2) None None in
  let b := bareBlock "b" CARDIO None (Some 8) (Some 45) in
  (exists s, head (buildSteps [a; b] true) = Some s
             /\ kind s = COUNTDOWN /\ durationSec s = 3)
  /\ ((forall b', last (activeBlocksOf [a; b] true) = Some b' ->
                  0 < setsOf b') ->
      exists s, last (buildSteps [a; b] true) = Some s /\ kind s = WORK).
Proof.
  cbv zeta.
  apply (buildSteps_first_last
           [bareBlock "a" WARMUP (Some 2) None None;
            bareBlock "b" CARDIO None (Some 8) (Some 45)] true).
  vm_compute. discriminate.
Defined.

(** *** The scenario of the specification *)

(** C1. One STANDARD block with sets = 3, reps = 10, rest_seconds = 60, no
    work_seconds and no WARMUP block: [buildSteps], for either value of
    [skipWarmup], returns exactly COUNTDOWN (3 s), WORK (set 1, 20 s),
    REST (60 s), WORK (set 2, 20 s), REST (60 s), WORK (set 3, 20 s), six
    steps whose durations sum to 183 seconds. *)
Theorem buildSteps_scenario :
  forall (skipWarmup : bool) bid oi exid spr ex,
    let b := scenarioBlock bid oi exid spr ex in
    let mk i k d sn ts rp ls :=
      {| stepIndex := i; kind := k; blockType := STANDARD;
         exerciseId := exid; exerciseName := exerciseNameOf b;
         durationSec := d; setNumber := sn; totalSets := ts;
         stepReps := rp; isLastSetOfExercise := ls |} in
    buildSteps [b] skipWarmup =
      [ mk 0 COUNTDOWN 3 None None None None;
        mk 1 WORK 20 (Some 1) (Some 3) (Some 10) (Some false);
        mk 2 REST 60 None None None None;
        mk 3 WORK 20 (Some 2) (Some 3) (Some 10) (Some false);
        mk 4 REST 60 None None None None;
        mk 5 WORK 20 (Some 3) (Some 3) (Some 10) (Some true) ]
    /\ length (buildSteps [b] skipWarmup) = 6%nat
    /\ totalDuration (buildSteps [b] skipWarmup) = 183.
Proof.
  intros skipWarmup bid oi exid spr ex.
  destruct skipWarmup; cbv zeta; repeat split; reflexivity.
Qed.

End SequencerProps.

(** ** Properties of the time readings and of the timing engine *)

Module TimingProps.
Import Storage.



(** The displayed second covers the true remaining time: it is the least
    number of whole seconds that does. *)
Lemma ceilDiv_bounds (x : Z) :
  x <= 1000 * ceilDiv x 1000 < x + 1000.
Proof.
  unfold ceilDiv.
  pose proof (Z.mul_div_le (- x) 1000 ltac:(lia)).
  pose proof (Z.mul_succ_div_gt (- x) 1000 ltac:(lia)).
  lia.
Qed.


(** C10. While a persisted session is PAUSED, the remaining seconds of the
    step and the total elapsed seconds do not depend on the clock: any two
    times give the same readings. *)
Theorem paused_readings_clock_independent :
  forall (session : PersistedWorkoutSession) (t1 t2 : Z),
    status session = PAUSED ->
    calculateStepRemaining session t1 = calculateStepRemaining session t2
    /\ calculateTotalElapsed session t1 = calculateTotalElapsed session t2.
Proof.
  intros session t1 t2 Hpaused.
  unfold calculateStepRemaining, calculateTotalElapsed.
  by rewrite Hpaused.
Qed.

Lemma paused_readings_clock_independent_witness :
  calculateStepRemaining pausedSample 20000 =
    calculateStepRemaining pausedSample 99999999
  /\ calculateTotalElapsed pausedSample 20000 =
       calculateTotalElapsed pausedSample 99999999.
Proof.
  apply (paused_readings_clock_independent pausedSample 20000 99999999).
  reflexivity.
Defined.

(** The total refs are untouched by a step advance or by finishing. *)
Lemma tick_totalElapsed now now' p :
  Player.totalElapsed (Player.tick now now' p) =
    (Player.totalAccumulatedRef p + (now - Player.workoutStartedAtRef p))
    / 1000.
Proof.
  unfold Player.tick, Player.goToNextStep, Player.handleFinish.
  cbv zeta.
  destruct (_ <=? 0); [|reflexivity].
  cbn [Player.steps Player.currentStepIndex].
  destruct (_ <=? _)%nat; [reflexivity|].
  destruct (_ !! _); reflexivity.
Qed.

Lemma tick_keeps_total_refs now now' p :
  Player.totalAccumulatedRef (Player.tick now now' p) =
    Player.totalAccumulatedRef p
  /\ Player.workoutStartedAtRef (Player.tick now now' p) =
       Player.workoutStartedAtRef p.
Proof.
  unfold Player.tick, Player.goToNextStep, Player.handleFinish.
  cbv zeta.
  destruct (_ <=? 0); [|by split].
  cbn [Player.steps Player.currentStepIndex].
  destruct (_ <=? _)%nat; [by split|].
  destruct (_ !! _); by split.
Qed.

Lemma ticks_keep_total_refs (times : list (Z * Z)) p :
  Player.totalAccumulatedRef
    (fold_left (fun q t => Player.tick t.1 t.2 q) times p)
    = Player.totalAccumulatedRef p
  /\ Player.workoutStartedAtRef
       (fold_left (fun q t => Player.tick t.1 t.2 q) times p)
     = Player.workoutStartedAtRef p.
Proof.
  revert p. induction times as [|t times IH]; intros p; simpl; [by split|].
  destruct (IH (Player.tick t.1 t.2 p)) as [-> ->].
  apply tick_keeps_total_refs.
Qed.

(** C5. Start at [T], pause at [T + t1], resume at [T + t1 + t2], tick at
    [T + t1 + t2 + t3], times in milliseconds: the total elapsed seconds the
    tick reports are [floor ((t1 + t3) / 1000)], that is [t1 + t3] within
    one second of rounding; the paused interval [t2] contributes nothing,
    however long.  Frames that tick while the player runs, before the pause
    ([frames1]) and after the resume ([frames3]), change nothing to this,
    nor does the clock read that follows in a tick that finds the time of
    its step up ([now'], and the second component of each frame). *)
Theorem pause_resume_time_conservation :
  forall (p0 : Player.State) (T t1 t2 t3 now' : Z)
         (frames1 frames3 : list (Z * Z)),
    let ticks := fold_left (fun q t => Player.tick t.1 t.2 q) in
    let p1 := ticks frames1 (Player.handleStart T p0) in
    let p2 := Player.handlePause (T + t1) p1 in
    let p3 := ticks frames3 (Player.handleResume (T + t1 + t2) p2) in
    let p4 := Player.tick (T + t1 + t2 + t3) now' p3 in
    Player.totalElapsed p4 = (t1 + t3) / 1000
    /\ 1000 * Player.totalElapsed p4 <= t1 + t3
       < 1000 * Player.totalElapsed p4 + 1000.
Proof.
  intros p0 T t1 t2 t3 now' frames1 frames3 ticks p1 p2 p3 p4.
  assert (Htotal : Player.totalElapsed p4 = (t1 + t3) / 1000).
  { unfold p4. rewrite tick_totalElapsed.
    unfold p3, ticks.
    destruct (ticks_keep_total_refs frames3
                (Player.handleResume (T + t1 + t2) p2)) as [-> ->].
    unfold p2. cbn [Player.handleResume Player.handlePause
                    Player.totalAccumulatedRef Player.workoutStartedAtRef].
    unfold p1, ticks.
    destruct (ticks_keep_total_refs frames1 (Player.handleStart T p0))
      as [-> ->].
    cbn [Player.handleStart Player.totalAccumulatedRef
         Player.workoutStartedAtRef].
    f_equal. lia. }
  split; [exact Htotal|]. rewrite Htotal.
  pose proof (Z.mul_div_le (t1 + t3) 1000 ltac:(lia)).
  pose proof (Z.mul_succ_div_gt (t1 + t3) 1000 ltac:(lia)).
  lia.
Qed.

End TimingProps.

(** ** Properties of the session persistence store *)

Module StorageProps.
Import Storage.

(** *** What [loadWorkoutSession] does, case by case *)

Lemma load_absent now sid (ls : gmap string StoredText) :
  ls !! getStorageKey sid = None ->
  loadWorkoutSession now sid ls = (None, ls).
Proof. intros H. unfold loadWorkoutSession. by rewrite H. Qed.

(** A text that does not parse is answered with [null] and stays in the
    store. *)
Lemma load_unparseable_kept now sid raw (ls : gmap string StoredText) :
  ls !! getStorageKey sid = Some (Unparseable raw) ->
  loadWorkoutSession now sid ls = (None, ls).
Proof.
  intros H. unfold loadWorkoutSession. rewrite H. simpl.
  by destruct (String.eqb raw "").
Qed.

(** A parsed value that fails the validation is deleted. *)
Lemma load_invalid_cleared now sid v (ls : gmap string StoredText) :
  ls !! getStorageKey sid = Some (JsonText v) ->
  invalidSession v = Normal true ->
  loadWorkoutSession now sid ls = (None, delete (getStorageKey sid) ls).
Proof.
  intros H Hinv. unfold loadWorkoutSession. rewrite H. simpl.
  by rewrite Hinv.
Qed.

(** A value that passes the validation carries a numeric [updatedAtMs]. *)
Lemma valid_has_updatedAt v :
  invalidSession v = Normal false ->
  exists u, getProp v "updatedAtMs" = Normal (Some (JNum u)).
Proof.
  unfold invalidSession.
  destruct v as [|b|n|t|items|fields]; try discriminate; simpl;
    try (rewrite ?orb_true_r; discriminate).
  intros H. injection H as H.
  repeat (apply orb_false_elim in H as [H ?]).
  destruct (fields !! "updatedAtMs") as [[| | u | | |]|]; try discriminate.
  eauto.
Qed.

(** A valid but stale record is deleted. *)
Lemma load_stale_cleared now sid v u (ls : gmap string StoredText) :
  ls !! getStorageKey sid = Some (JsonText v) ->
  invalidSession v = Normal false ->
  getProp v "updatedAtMs" = Normal (Some (JNum u)) ->
  MAX_SESSION_AGE_MS < now - u ->
  loadWorkoutSession now sid ls = (None, delete (getStorageKey sid) ls).
Proof.
  intros H Hinv Hu Hold. unfold loadWorkoutSession. rewrite H. simpl.
  rewrite Hinv, Hu. unfold isSessionStale.
  by destruct (Z.ltb_spec MAX_SESSION_AGE_MS (now - u)); [|lia].
Qed.

(** Whatever is returned passed the validation of the seven checked fields
    and is not stale; the store is then unchanged. *)
Lemma load_returned_checked now sid v (ls ls' : gmap string StoredText) :
  loadWorkoutSession now sid ls = (Some v, ls') ->
  ls' = ls
  /\ ls !! getStorageKey sid = Some (JsonText v)
  /\ invalidSession v = Normal false
  /\ exists u, getProp v "updatedAtMs" = Normal (Some (JNum u))
               /\ now - u <= MAX_SESSION_AGE_MS.
Proof.
  unfold loadWorkoutSession.
  destruct (ls !! getStorageKey sid) as [[raw|w]|] eqn:Hls;
    [simpl; destruct (String.eqb raw ""); discriminate| |discriminate].
  simpl.
  destruct (invalidSession w) as [[|]|] eqn:Hinv; try discriminate.
  destruct (valid_has_updatedAt w Hinv) as [u Hu]. rewrite Hu.
  unfold isSessionStale.
  destruct (Z.ltb_spec MAX_SESSION_AGE_MS (now - u)); [discriminate|].
  intros [= <- <-]. eauto 10.
Qed.

(** *** A typed record and its run-time object *)

Lemma fromJson_toJson s : fromJson (toJson s) = Some s.
Proof. destruct s as [sid [|] idx skip sig ws ta ss sd sa up]; reflexivity. Qed.

Lemma invalidSession_obj (f : gmap string JsValue) :
  invalidSession (JObj f) =
    Normal
      (falsy (f !! "sessionId")
       || falsy (f !! "status")
       || negb (isNumber (f !! "currentStepIndex"))
       || negb (isBoolean (f !! "skipWarmup"))
       || falsy (f !! "stepsSignature")
       || negb (isNumber (f !! "workoutStartedAtMs"))
       || negb (isNumber (f !! "updatedAtMs"))).
Proof. reflexivity. Qed.

Lemma toJson_valid s :
  structurallyValid s -> invalidSession (toJson s) = Normal false.
Proof.
  intros [Hsid Hsig].
  apply String.eqb_neq in Hsid, Hsig.
  unfold toJson. rewrite invalidSession_obj.
  set (f := list_to_map _).
  assert (H1 : f !! "sessionId" = Some (JStr (sessionId s))) by reflexivity.
  assert (H2 : f !! "status" = Some (JStr (statusText (status s))))
    by reflexivity.
  assert (H3 : f !! "currentStepIndex" = Some (JNum (currentStepIndex s)))
    by reflexivity.
  assert (H4 : f !! "skipWarmup" = Some (JBool (skipWarmup s)))
    by reflexivity.
  assert (H5 : f !! "stepsSignature" = Some (JStr (stepsSignature s)))
    by reflexivity.
  assert (H6 : f !! "workoutStartedAtMs" = Some (JNum (workoutStartedAtMs s)))
    by reflexivity.
  assert (H7 : f !! "updatedAtMs" = Some (JNum (updatedAtMs s)))
    by reflexivity.
  rewrite H1, H2, H3, H4, H5, H6, H7.
  cbn [falsy isNumber isBoolean negb orb].
  rewrite Hsid, Hsig. by destruct (status s).
Qed.

Lemma toJson_updatedAt s :
  getProp (toJson s) "updatedAtMs" = Normal (Some (JNum (updatedAtMs s))).
Proof. reflexivity. Qed.

(** *** Round trip *)

(** The save whose write is accepted is [saveWorkoutSession]; a refused
    write leaves the store as it was. *)
Lemma saveWorkoutSessionOn_outcomes now sid data (ls : gmap string StoredText) :
  saveWorkoutSessionOn true now sid data ls = saveWorkoutSession now sid data ls
  /\ saveWorkoutSessionOn false now sid data ls = ls.
Proof. by split. Qed.

(** C7, as stated, fails.  A snapshot with every field present and of its
    declared type, but an empty [sessionId], is not returned by the load
    that follows its save: the load returns [null] and deletes the record.
    And when the platform refuses the write, the load finds nothing. *)
Lemma load_after_save_not_every_snapshot :
  fromJson (toJson emptyIdSample) = Some emptyIdSample
  /\ 20000 - 16500 < MAX_SESSION_AGE_MS
  /\ loadWorkoutSession 20000 "s1"
       (saveWorkoutSessionOn true 16500 "s1" emptyIdSample ∅) = (None, ∅)
  /\ loadWorkoutSession 20000 "s1"
       (saveWorkoutSessionOn false 16500 "s1" runningSample ∅) = (None, ∅).
Proof.
  split; [reflexivity|]. split; [reflexivity|]. split.
  - unfold saveWorkoutSessionOn, setItem, loadWorkoutSession.
    rewrite lookup_insert_eq. cbn [emptyText JSON_stringify JSON_parse].
    unfold clearWorkoutSession. rewrite delete_insert_eq.
    reflexivity.
  - reflexivity.
Qed.

(** C7, amended.  For every session id and every snapshot whose
    [sessionId] and [stepsSignature] are not empty, when the platform
    accepts the write, [loadWorkoutSession] after the save returns a
    record that holds every field of the snapshot with the value the
    snapshot has, except [updatedAtMs], which holds the time of the write,
    provided no more than the four-hour staleness window has passed since
    the save; the stored record is left in place. *)
Theorem load_after_save :
  forall (sid : string) (snapshot : PersistedWorkoutSession)
         (ls : gmap string StoredText) (tSave tLoad : Z),
    sessionId snapshot <> "" ->
    stepsSignature snapshot <> "" ->
    tLoad - tSave <= MAX_SESSION_AGE_MS ->
    let ls' := saveWorkoutSessionOn true tSave sid snapshot ls in
    exists loaded,
      loadWorkoutSession tLoad sid ls' = (Some loaded, ls')
      /\ loaded =
           JObj (list_to_map
             [ ("sessionId", JStr (sessionId snapshot));
               ("status",
                JStr match status snapshot with
                     | RUNNING => "RUNNING"
                     | PAUSED => "PAUSED"
                     end);
               ("currentStepIndex", JNum (currentStepIndex snapshot));
               ("skipWarmup", JBool (skipWarmup snapshot));
               ("stepsSignature", JStr (stepsSignature snapshot));
               ("workoutStartedAtMs", JNum (workoutStartedAtMs snapshot));
               ("totalAccumulatedMs", JNum (totalAccumulatedMs snapshot));
               ("stepStartedAtMs", JNum (stepStartedAtMs snapshot));
               ("stepOriginalDurationSec",
                JNum (stepOriginalDurationSec snapshot));
               ("stepAccumulatedMs", JNum (stepAccumulatedMs snapshot));
               ("updatedAtMs", JNum tSave) ])
      /\ fromJson loaded =
           Some {| sessionId := sessionId snapshot;
                   status := status snapshot;
                   currentStepIndex := currentStepIndex snapshot;
                   skipWarmup := skipWarmup snapshot;
                   stepsSignature := stepsSignature snapshot;
                   workoutStartedAtMs := workoutStartedAtMs snapshot;
                   totalAccumulatedMs := totalAccumulatedMs snapshot;
                   stepStartedAtMs := stepStartedAtMs snapshot;
                   stepOriginalDurationSec :=
                     stepOriginalDurationSec snapshot;
                   stepAccumulatedMs := stepAccumulatedMs snapshot;
                   updatedAtMs := tSave |}.
Proof.
  intros sid snapshot ls tSave tLoad Hsid Hsig Hfresh ls'.
  exists (toJson (withUpdatedAt snapshot tSave)).
  split; [|split; [reflexivity|apply (fromJson_toJson
                                       (withUpdatedAt snapshot tSave))]].
  unfold loadWorkoutSession, ls', saveWorkoutSessionOn, setItem,
    JSON_stringify.
  rewrite lookup_insert_eq. cbn [emptyText JSON_parse].
  rewrite toJson_valid by (by split).
  rewrite toJson_updatedAt. cbn [updatedAtMs withUpdatedAt].
  unfold isSessionStale.
  by destruct (Z.ltb_spec MAX_SESSION_AGE_MS (tLoad - tSave)); [lia|].
Qed.

Lemma load_after_save_witness :
  let ls' := saveWorkoutSessionOn true 16500 "s1" runningSample ∅ in
  exists loaded,
    loadWorkoutSession 3616500 "s1" ls' = (Some loaded, ls')
    /\ loaded =
         JObj (list_to_map
           [ ("sessionId", JStr "s1");
             ("status", JStr "RUNNING");
             ("currentStepIndex", JNum 2);
             ("skipWarmup", JBool true);
             ("stepsSignature", JStr "skip_1_b1");
             ("workoutStartedAtMs", JNum 1000);
             ("totalAccumulatedMs", JNum 0);
             ("stepStartedAtMs", JNum 4000);
             ("stepOriginalDurationSec", JNum 20);
             ("stepAccumulatedMs", JNum 0);
             ("updatedAtMs", JNum 16500) ])
    /\ fromJson loaded =
         Some {| sessionId := "s1"; status := RUNNING;
                 currentStepIndex := 2; skipWarmup := true;
                 stepsSignature := "skip_1_b1";
                 workoutStartedAtMs := 1000; totalAccumulatedMs := 0;
                 stepStartedAtMs := 4000; stepOriginalDurationSec := 20;
                 stepAccumulatedMs := 0; updatedAtMs := 16500 |}.
Proof.
  apply (load_after_save "s1" runningSample ∅ 16500 3616500).
  - discriminate.
  - discriminate.
  - vm_compute. discriminate.
Defined.

(** *** Where the load is not fail-closed *)

(** C3, on the code.  First, a stored text that is not JSON is answered
    with [null] but is not deleted: it is still under its key afterwards.
    Second, a record with [totalAccumulatedMs], [stepStartedAtMs],
    [stepOriginalDurationSec] and [stepAccumulatedMs] missing is returned
    although it is no complete [PersistedWorkoutSession]. *)
Theorem load_not_fail_closed :
  (let ls : gmap string StoredText :=
     {[ getStorageKey "s1" := Unparseable "{oops" ]} in
   loadWorkoutSession 20000 "s1" ls = (None, ls)
   /\ ls !! getStorageKey "s1" = Some (Unparseable "{oops"))
  /\ (let ls : gmap string StoredText :=
        {[ getStorageKey "s1" := JsonText partialRecord ]} in
      loadWorkoutSession 20000 "s1" ls = (Some partialRecord, ls)
      /\ fromJson partialRecord = None
      /\ getProp partialRecord "stepAccumulatedMs" = Normal None).
Proof.
  cbv zeta. split; [split|split; [|split]].
  - apply (load_unparseable_kept _ _ "{oops"). apply lookup_singleton_eq.
  - apply lookup_singleton_eq.
  - unfold loadWorkoutSession. rewrite lookup_singleton_eq. reflexivity.
  - reflexivity.
  - reflexivity.
Qed.

End StorageProps.

(** ** Properties of the beep guard *)

Module AudioProps.
Import Audio.

(** Calling twice in a row with one key invokes the effect once. *)
Lemma beepOnce_twice {World} key (f : World -> World) st :
  beepOnce key f (beepOnce key f st) = beepOnce key f st.
Proof.
  unfold beepOnce.
  destruct (String.eqb key (lastBeepKey st)) eqn:Hk; simpl.
  - by rewrite Hk.
  - by rewrite String.eqb_refl.
Qed.

(** After [resetBeepGuard] a key, unless it is the empty string, fires. *)
Lemma beepOnce_after_reset {World} key (f : World -> World) st :
  key <> "" ->
  beepOnce key f (resetBeepGuard st) =
    {| lastBeepKey := key; world := f (world st) |}.
Proof.
  intros Hk. unfold beepOnce, resetBeepGuard. simpl.
  by apply String.eqb_neq in Hk as ->.
Qed.

(** The guard remembers the last key only: a call with a key other than
    the last one played always fires. *)
Lemma beepOnce_fires key st :
  key <> lastBeepKey st ->
  invocations key (call st (BeepOnce key)) = S (invocations key st)
  /\ lastBeepKey (call st (BeepOnce key)) = key.
Proof.
  intros Hk. unfold call, beepOnce.
  apply String.eqb_neq in Hk as ->. simpl. split; [|done].
  unfold invocations, emit. simpl.
  rewrite count_occ_app. simpl.
  destruct (string_dec key key); [lia|done].
Qed.

Lemma beepOnce_other_key key other st :
  key <> other ->
  invocations key (call st (BeepOnce other)) = invocations key st.
Proof.
  intros Hk. unfold call, beepOnce.
  destruct (String.eqb other (lastBeepKey st)); [done|].
  unfold invocations, emit. simpl.
  rewrite count_occ_app. simpl.
  destruct (string_dec other key); [congruence|lia].
Qed.

(** Any two distinct keys [a] and [b], [a] not empty: in the sequence
    [a], [b], [a] after a reset, the effect of [a] is invoked twice. *)
Lemma beepOnce_a_b_a (a b : string) st :
  a <> b -> a <> "" ->
  invocations a
    (run [BeepOnce a; BeepOnce b; BeepOnce a] (resetBeepGuard st)) =
  S (S (invocations a st)).
Proof.
  intros Hab Ha. unfold run. cbn [fold_left].
  set (s0 := resetBeepGuard st).
  destruct (beepOnce_fires a s0) as [H1 L1]; [by intros ->|].
  set (s1 := call s0 (BeepOnce a)) in *.
  assert (L2 : lastBeepKey (call s1 (BeepOnce b)) = b).
  { unfold call, beepOnce. by destruct (String.eqb b (lastBeepKey s1)) eqn:E;
      [apply String.eqb_eq in E|]. }
  pose proof (beepOnce_other_key a b s1 Hab) as H2.
  set (s2 := call s1 (BeepOnce b)) in *.
  destruct (beepOnce_fires a s2) as [H3 _]; [by rewrite L2|].
  rewrite H3, H2, H1. reflexivity.
Qed.

(** C4, on the code.  Between two resets the player asks for the cue of the
    third second of step 0, then for the cue of another key, then again for
    the first one: the effect of the first key is invoked twice, not once.
    After a reset the key fires again. *)
Theorem beepOnce_once_per_key_fails :
  let a := "countdown-0-3" in
  let b := "transition-work-1" in
  invocations a
    (run [ResetBeepGuard; BeepOnce a; BeepOnce b; BeepOnce a] initial)
  = 2%nat
  /\ invocations a (run [ResetBeepGuard; BeepOnce a; BeepOnce a] initial)
     = 1%nat
  /\ invocations a
       (run [ResetBeepGuard; BeepOnce a; ResetBeepGuard; BeepOnce a] initial)
     = 2%nat.
Proof. cbv zeta. repeat split; reflexivity. Qed.

End AudioProps.

(** ** Properties of the session label *)

Module LabelProps.
Import Label.

Example formatDay_push_day : formatDay "push_day" = "Push Day".
Proof. reflexivity. Qed.

Example formatDay_upper_a : formatDay "upper_a" = "Upper A".
Proof. reflexivity. Qed.

Example formatDay_keeps_tail : formatDay "LEG_dAY" = "LEG DAY".
Proof. reflexivity. Qed.

(** C8, as stated, fails.  A custom routine that carries program metadata
    is labelled as custom, not by its program; with a program key but no
    day key the label is the program key, not the title; an empty title is
    replaced by a fixed word. *)
Lemma generateLabel_differs_from_spec :
  generateLabel custom (Some "PPL") (Some "push_day") "Brazos"
    = "Custom · Brazos"
  /\ specLabel custom (Some "PPL") (Some "push_day") "Brazos"
    = "PPL · Push Day"
  /\ generateLabel custom (Some "PPL") (Some "push_day") "Brazos"
     <> specLabel custom (Some "PPL") (Some "push_day") "Brazos"
  /\ generateLabel recommended (Some "PPL") None "Brazos" = "PPL"
  /\ specLabel recommended (Some "PPL") None "Brazos" = "Brazos"
  /\ generateLabel recommended None None "" = "Entrenamiento"
  /\ specLabel recommended None None "" = "".
Proof. repeat split; try reflexivity. discriminate. Qed.

(** C8, amended.  The label is ["Custom · <routine title>"] whenever the
    session is a custom routine, whatever the program metadata; otherwise
    ["<programKey> · <formatted dayKey>"] when [programKey] and [dayKey]
    are both present and non-empty (for ASCII day keys, the ones the
    formatting is modelled for); otherwise [programKey] alone when it is
    present and non-empty; otherwise the routine title, or
    ["Entrenamiento"] when the title is empty. *)
Theorem generateLabel_cases :
  forall (programKey dayKey : option string) (routineTitle : string),
    generateLabel custom programKey dayKey routineTitle
      = "Custom · " +:+ routineTitle
    /\ (forall pk dk,
          programKey = Some pk -> dayKey = Some dk -> pk <> "" -> dk <> "" ->
          isAscii dk = true ->
          generateLabel recommended programKey dayKey routineTitle
            = pk +:+ " · " +:+ formatDay dk)
    /\ (forall pk,
          programKey = Some pk -> pk <> "" ->
          dayKey = None \/ dayKey = Some "" ->
          generateLabel recommended programKey dayKey routineTitle = pk)
    /\ (programKey = None \/ programKey = Some "" ->
        generateLabel recommended programKey dayKey routineTitle
          = if String.eqb routineTitle "" then "Entrenamiento"
            else routineTitle).
Proof.
  intros programKey dayKey routineTitle. split; [reflexivity|].
  split; [|split].
  - intros pk dk -> -> Hpk Hdk _. unfold generateLabel, truthyStr.
    apply String.eqb_neq in Hpk, Hdk. by rewrite Hpk, Hdk.
  - intros pk -> Hpk Hdk. unfold generateLabel, truthyStr.
    apply String.eqb_neq in Hpk. rewrite Hpk.
    by destruct Hdk as [-> | ->].
  - intros [-> | ->]; reflexivity.
Qed.

Lemma generateLabel_cases_witness :
  generateLabel custom (Some "PPL") (Some "push_day") "Brazos"
    = "Custom · Brazos"
  /\ generateLabel recommended (Some "PPL") (Some "push_day") "Brazos"
    = "PPL · Push Day"
  /\ generateLabel recommended (Some "PPL") None "Brazos" = "PPL"
  /\ generateLabel recommended None None "Brazos" = "Brazos".
Proof.
  destruct (generateLabel_cases (Some "PPL") (Some "push_day") "Brazos")
    as (Hc & Hboth & _ & _).
  destruct (generateLabel_cases (Some "PPL") None "Brazos")
    as (_ & _ & Hpk & _).
  destruct (generateLabel_cases None None "Brazos") as (_ & _ & _ & Hnone).
  split; [exact Hc|]. split; [|split].
  - apply (Hboth "PPL" "push_day");
      [reflexivity|reflexivity|discriminate|discriminate|reflexivity].
  - apply (Hpk "PPL"); [reflexivity|discriminate|by left].
  - apply Hnone. by left.
Defined.

End LabelProps.

(** ** Further properties of the step sequencer *)

Module SequencerMore.
Import Sequencer SequencerProps.

(** *** Everything pushed comes from an active block *)

Lemma fold_left_elem_of {A B} (P : B -> Prop) (body : B -> A -> B)
    (l : list A) (st : B) :
  (forall s a, a ∈ l -> P s -> P (body s a)) ->
  P st -> P (fold_left body l st).
Proof.
  revert st. induction l as [|a l IH]; intros st Hbody Hst; simpl; [done|].
  apply IH.
  - intros s x Hx. apply Hbody. by right.
  - apply Hbody; [by left|done].
Qed.

Lemma elem_of_setNumbers n m : n ∈ setNumbers m -> 1 <= n <= m.
Proof.
  unfold setNumbers. intros Hn.
  apply list_elem_of_fmap in Hn as [k [-> Hk]].
  apply list_elem_of_In, in_seq in Hk. lia.
Qed.

Lemma Emitted_push abs mk st :
  (forall i, Emitted abs (mk i)) ->
  Forall (Emitted abs) (steps st) ->
  Forall (Emitted abs) (steps (push mk st)).
Proof.
  intros Hmk Hst. simpl. apply Forall_app. split; [done|].
  by apply Forall_singleton.
Qed.

Lemma Emitted_setBody abs block isLastBlock nextBlock st setNum :
  block ∈ abs ->
  (forall nb, nextBlock = Some nb -> nb ∈ abs) ->
  1 <= setNum <= setsOf block ->
  Forall (Emitted abs) (steps st) ->
  Forall (Emitted abs)
    (steps (setBody block isLastBlock nextBlock st setNum)).
Proof.
  intros Hb Hnb Hn Hst. unfold setBody.
  assert (Hw : forall i, Emitted abs (workStep block setNum i))
    by (intros i; by constructor).
  assert (Hc : forall nb i, nextBlock = Some nb ->
                            Emitted abs (countdownStep nb i))
    by (intros nb i Heq; constructor; by apply Hnb).
  destruct (0 <? restSecOf block) eqn:Hrest;
    [apply Z.ltb_lt in Hrest;
     assert (Hr : forall i, Emitted abs (restStep block i))
       by (intros i; by constructor)|];
    destruct (setNum =? setsOf block), isLastBlock, nextBlock as [nb|];
    cbn [andb negb];
    repeat first
      [ assumption
      | apply Emitted_push; [first [assumption | intros i; by apply Hc]|] ].
Qed.

Lemma Emitted_blockBody abs st blockIdx :
  Forall (Emitted abs) (steps st) ->
  Forall (Emitted abs) (steps (blockBody abs st blockIdx)).
Proof.
  intros Hst. unfold blockBody.
  destruct (abs !! blockIdx) as [block|] eqn:Hblock; [|done].
  assert (Hb : block ∈ abs) by (by eapply list_elem_of_lookup_2).
  apply (fold_left_elem_of (fun s => Forall (Emitted abs) (steps s))).
  - intros s n Hn Hs. apply Emitted_setBody; try done.
    + intros nb Hnb. by eapply list_elem_of_lookup_2.
    + by apply elem_of_setNumbers.
  - destruct (Nat.eqb blockIdx 0); [|done].
    apply Emitted_push; [|done]. intros i. by constructor.
Qed.

Lemma buildSteps_Emitted blocks skipWarmup :
  Forall (Emitted (activeBlocksOf blocks skipWarmup))
    (buildSteps blocks skipWarmup).
Proof.
  unfold buildSteps.
  destruct (Nat.eqb (length (activeBlocksOf blocks skipWarmup)) 0); [done|].
  apply (fold_left_elem_of
           (fun s => Forall (Emitted (activeBlocksOf blocks skipWarmup))
                       (steps s))).
  - intros s i _ Hs. by apply Emitted_blockBody.
  - constructor.
Qed.

Lemma elem_of_activeBlocksOf b blocks skipWarmup :
  b ∈ activeBlocksOf blocks skipWarmup ->
  b ∈ blocks /\ (skipWarmup = true -> block_type b <> WARMUP).
Proof.
  unfold activeBlocksOf. destruct skipWarmup; [|by split].
  intros Hb. apply list_elem_of_In, filter_In in Hb as [Hb Hty].
  split; [by apply list_elem_of_In|]. intros _ Heq.
  by rewrite Heq in Hty.
Qed.

Lemma workDurationOf_pos b :
  (forall w, work_seconds b = Some w -> 0 <= w) -> 0 < workDurationOf b.
Proof.
  intros Hw. unfold workDurationOf, SECONDS_PER_REP.
  assert (Hreps : 0 < (if 0 <? repsOf b then repsOf b * 2 else 30))
    by (destruct (Z.ltb_spec 0 (repsOf b)); lia).
  destruct (work_seconds b) as [w|]; [|done].
  specialize (Hw w eq_refl).
  destruct (Z.eqb_spec w 0); [done|lia].
Qed.

(** X1. Every step of the sequence carries its position as [stepIndex]. *)
Theorem buildSteps_indices_are_positions :
  forall blocks skipWarmup (i : nat) s,
    buildSteps blocks skipWarmup !! i = Some s ->
    stepIndex s = Z.of_nat i.
Proof. intros blocks skipWarmup i s. apply buildSteps_stepIndex. Qed.

Lemma buildSteps_indices_are_positions_witness :
  let b := bareBlock "b" STANDARD (Some 2) None (Some 45) in
  stepIndex (restStep b 2) = Z.of_nat 2.
Proof.
  cbv zeta.
  apply (buildSteps_indices_are_positions
           [bareBlock "b" STANDARD (Some 2) None (Some 45)] false 2%nat).
  reflexivity.
Defined.

(** X2. The sequence is empty exactly when there is no active block: no
    block at all, or warm-up skipped and every block a WARMUP block. *)
Theorem buildSteps_empty_iff :
  forall blocks skipWarmup,
    buildSteps blocks skipWarmup = [] <->
    (forall b, b ∈ blocks -> skipWarmup = true /\ block_type b = WARMUP).
Proof.
  intros blocks skipWarmup. split.
  - intros Hnil b Hb.
    destruct (activeBlocksOf blocks skipWarmup) as [|a rest] eqn:Habs.
    + unfold activeBlocksOf in Habs. destruct skipWarmup.
      * split; [done|].
        destruct (block_type b) eqn:Hty; try done;
          assert (Hin : In b (List.filter
                     (fun b => negb (BlockType_eqb (block_type b) WARMUP))
                     blocks))
            by (apply filter_In; split;
                [by apply list_elem_of_In|by rewrite Hty]);
          by rewrite Habs in Hin.
      * subst blocks. by apply elem_of_nil in Hb.
    + exfalso.
      assert (Hne : activeBlocksOf blocks skipWarmup <> [])
        by (by rewrite Habs).
      rewrite (buildSteps_active _ _ Hne), Habs in Hnil.
      cbn [length seq fold_left] in Hnil.
      rewrite (Frames_steps (fun s => fold_left (blockBody _) _ s)) in Hnil
        by framed.
      destruct (blockBody_first a rest 0) as [l Hl].
      by rewrite Hl in Hnil.
  - intros Hall. unfold buildSteps.
    destruct (activeBlocksOf blocks skipWarmup) as [|a rest] eqn:Habs; [done|].
    assert (Ha : a ∈ activeBlocksOf blocks skipWarmup)
      by (rewrite Habs; by left).
    apply elem_of_activeBlocksOf in Ha as [Ha Hty].
    destruct (Hall a Ha) as [Hskip Hw]. by destruct (Hty Hskip).
Qed.

Lemma buildSteps_empty_iff_witness :
  buildSteps [bareBlock "w" WARMUP (Some 1) None None] true = [].
Proof.
  apply (proj2 (buildSteps_empty_iff
                  [bareBlock "w" WARMUP (Some 1) None None] true)).
  intros b Hb. apply list_elem_of_singleton in Hb as ->. by split.
Defined.

(** X3. No step is zero-length or negative where the sequencer decides the
    duration: every REST step lasts more than 0 s and every COUNTDOWN step
    3 s.  When no block has a negative [work_seconds], every step of the
    sequence has a positive duration. *)
Theorem buildSteps_durations :
  forall blocks skipWarmup (i : nat) s,
    buildSteps blocks skipWarmup !! i = Some s ->
    (kind s = REST -> 0 < durationSec s)
    /\ (kind s = COUNTDOWN -> durationSec s = 3)
    /\ ((forall b w, b ∈ blocks -> work_seconds b = Some w -> 0 <= w) ->
        0 < durationSec s).
Proof.
  intros blocks skipWarmup i s Hs.
  pose proof (buildSteps_Emitted blocks skipWarmup) as Hall.
  rewrite Forall_lookup in Hall. specialize (Hall i s Hs).
  destruct Hall as [b k Hb | b n k Hb Hn | b k Hb Hrest]; simpl.
  - repeat split; try done.
  - split; [done|]. split; [done|]. intros Hw. apply workDurationOf_pos.
    intros w. apply Hw. by apply elem_of_activeBlocksOf in Hb as [Hb _].
  - repeat split; try done.
Qed.

Lemma buildSteps_durations_witness :
  let b := bareBlock "b" STANDARD (Some 2) None (Some 45) in
  (kind (restStep b 2) = REST -> 0 < durationSec (restStep b 2))
  /\ (kind (restStep b 2) = COUNTDOWN -> durationSec (restStep b 2) = 3)
  /\ ((forall b' w, b' ∈ [b] -> work_seconds b' = Some w -> 0 <= w) ->
      0 < durationSec (restStep b 2)).
Proof.
  cbv zeta.
  apply (buildSteps_durations
           [bareBlock "b" STANDARD (Some 2) None (Some 45)] false 2%nat).
  reflexivity.
Defined.

(** X4. With the warm-up skipped, no step of the sequence belongs to a
    WARMUP block. *)
Theorem buildSteps_skips_warmup :
  forall blocks (i : nat) s,
    buildSteps blocks true !! i = Some s -> blockType s <> WARMUP.
Proof.
  intros blocks i s Hs.
  pose proof (buildSteps_Emitted blocks true) as Hall.
  rewrite Forall_lookup in Hall. specialize (Hall i s Hs).
  destruct Hall as [b k Hb | b n k Hb Hn | b k Hb Hrest]; simpl;
    apply elem_of_activeBlocksOf in Hb as [_ Hty]; by apply Hty.
Qed.

Lemma buildSteps_skips_warmup_witness :
  let w := bareBlock "w" WARMUP (Some 1) None None in
  let b := bareBlock "b" STANDARD (Some 2) None (Some 45) in
  blockType (countdownStep b 0) <> WARMUP.
Proof.
  cbv zeta.
  apply (buildSteps_skips_warmup
           [bareBlock "w" WARMUP (Some 1) None None;
            bareBlock "b" STANDARD (Some 2) None (Some 45)] 0%nat).
  reflexivity.
Defined.

(** X5. Every WORK step carries a set number between 1 and the total number
    of sets of its block, and is flagged as the last set of the exercise
    exactly when its number is that total. *)
Theorem buildSteps_work_numbering :
  forall blocks skipWarmup (i : nat) s,
    buildSteps blocks skipWarmup !! i = Some s ->
    kind s = WORK ->
    exists n t,
      setNumber s = Some n /\ totalSets s = Some t
      /\ 1 <= n <= t
      /\ isLastSetOfExercise s = Some (n =? t).
Proof.
  intros blocks skipWarmup i s Hs Hk.
  pose proof (buildSteps_Emitted blocks skipWarmup) as Hall.
  rewrite Forall_lookup in Hall. specialize (Hall i s Hs).
  destruct Hall as [b k Hb | b n k Hb Hn | b k Hb Hrest]; try discriminate.
  exists n, (setsOf b). repeat split; try done; lia.
Qed.

Lemma buildSteps_work_numbering_witness :
  let b := bareBlock "b" STANDARD (Some 2) None (Some 45) in
  exists n t,
    setNumber (workStep b 2 3) = Some n /\ totalSets (workStep b 2 3) = Some t
    /\ 1 <= n <= t
    /\ isLastSetOfExercise (workStep b 2 3) = Some (n =? t).
Proof.
  cbv zeta.
  apply (buildSteps_work_numbering
           [bareBlock "b" STANDARD (Some 2) None (Some 45)] false 3%nat);
    reflexivity.
Defined.

(** *** Counting the WORK steps *)

Lemma totalWorkSteps_app l1 l2 :
  totalWorkSteps (l1 ++ l2) = (totalWorkSteps l1 + totalWorkSteps l2)%nat.
Proof. unfold totalWorkSteps. by rewrite List.filter_app, length_app. Qed.

Lemma totalWorkSteps_setBody block isLastBlock nextBlock st setNum :
  totalWorkSteps (steps (setBody block isLastBlock nextBlock st setNum)) =
    S (totalWorkSteps (steps st)).
Proof.
  unfold setBody.
  destruct (setNum =? setsOf block), isLastBlock, (0 <? restSecOf block),
    nextBlock; cbn [andb negb push steps nextStepIndex];
    rewrite !totalWorkSteps_app; cbn; lia.
Qed.

Lemma totalWorkSteps_sets block isLastBlock nextBlock l st :
  totalWorkSteps
    (steps (fold_left (setBody block isLastBlock nextBlock) l st)) =
    (totalWorkSteps (steps st) + length l)%nat.
Proof.
  revert st. induction l as [|n l IH]; intros st; simpl; [lia|].
  rewrite IH, totalWorkSteps_setBody. lia.
Qed.

Lemma totalWorkSteps_blockBody abs st blockIdx b :
  abs !! blockIdx = Some b ->
  totalWorkSteps (steps (blockBody abs st blockIdx)) =
    (totalWorkSteps (steps st) + Z.to_nat (setsOf b))%nat.
Proof.
  intros Hb. unfold blockBody. rewrite Hb.
  rewrite totalWorkSteps_sets.
  unfold setNumbers. rewrite length_map, length_seq.
  destruct (Nat.eqb blockIdx 0); [|done].
  cbn [push steps]. rewrite totalWorkSteps_app. cbn. lia.
Qed.

Lemma prescribedSets_snoc l b :
  prescribedSets (l ++ [b]) = (prescribedSets l + Z.to_nat (setsOf b))%nat.
Proof. induction l as [|a l IH]; simpl; [lia|]. rewrite IH. lia. Qed.

Lemma totalWorkSteps_blocks abs st (k : nat) :
  (k <= length abs)%nat ->
  totalWorkSteps (steps (fold_left (blockBody abs) (seq 0 k) st)) =
    (totalWorkSteps (steps st) + prescribedSets (take k abs))%nat.
Proof.
  induction k as [|k IH]; intros Hk.
  - simpl. rewrite ?take_0. simpl. lia.
  - destruct (lookup_lt_is_Some_2 abs k ltac:(lia)) as [b Hb].
    rewrite seq_S, fold_left_app. cbn [fold_left Nat.add].
    rewrite (totalWorkSteps_blockBody _ _ _ b Hb), IH by lia.
    rewrite (take_S_r _ _ _ Hb), prescribedSets_snoc. lia.
Qed.

(** X6. The number of WORK steps of the sequence, which the player shows as
    the total of sets, is the sum of the set counts of the active blocks
    ([sets], or 1 when absent or 0; a negative count gives no step). *)
Theorem buildSteps_totalWorkSteps :
  forall blocks skipWarmup,
    totalWorkSteps (buildSteps blocks skipWarmup) =
      prescribedSets (activeBlocksOf blocks skipWarmup).
Proof.
  intros blocks skipWarmup. unfold buildSteps.
  destruct (activeBlocksOf blocks skipWarmup) as [|a rest] eqn:Habs; [done|].
  rewrite <- Habs.
  replace (Nat.eqb (length (activeBlocksOf blocks skipWarmup)) 0) with false
    by (by rewrite Habs).
  rewrite totalWorkSteps_blocks by lia.
  by rewrite take_ge by lia.
Qed.

(** *** REST steps come after WORK steps *)

Lemma lastKind_cons p s l : lastKind p (s :: l) = lastKind (Some (kind s)) l.
Proof.
  unfold lastKind. destruct l as [|s' l]; [done|].
  change (last (s :: s' :: l)) with (last (s' :: l)).
  destruct (last (s' :: l)) eqn:Hlast; [done|].
  by apply last_None in Hlast.
Qed.

Lemma restsFollowWork_app p l1 l2 :
  restsFollowWork p (l1 ++ l2) =
    restsFollowWork p l1 && restsFollowWork (lastKind p l1) l2.
Proof.
  revert p. induction l1 as [|s l1 IH]; intros p; [done|].
  rewrite lastKind_cons. simpl.
  destruct (kind s), p as [[| |]|]; simpl; try done; apply IH.
Qed.

Lemma RestsOk_comp f g :
  Frames f -> Frames g -> RestsOk f -> RestsOk g ->
  RestsOk (fun st => g (f st)).
Proof.
  intros Hf Hg Rf Rg k p.
  rewrite (Frames_steps g (f (fresh k)) Hg), restsFollowWork_app.
  by rewrite Rf, Rg.
Qed.

Lemma RestsOk_id : RestsOk (fun st => st).
Proof. by intros k p. Qed.

Lemma RestsOk_fold {A} (body : BuildState -> A -> BuildState) (l : list A) :
  (forall a, Frames (fun st => body st a)) ->
  (forall a, RestsOk (fun st => body st a)) ->
  RestsOk (fun st => fold_left body l st).
Proof.
  intros HF HR. induction l as [|a l IH]; simpl; [apply RestsOk_id|].
  apply (RestsOk_comp (fun st => body st a) (fun st => fold_left body l st));
    auto.
  by apply Frames_fold.
Qed.

Lemma RestsOk_setBody block isLastBlock nextBlock setNum :
  RestsOk (fun st => setBody block isLastBlock nextBlock st setNum).
Proof.
  intros k p. unfold setBody.
  destruct (setNum =? setsOf block), isLastBlock, (0 <? restSecOf block),
    nextBlock, p as [[| |]|]; reflexivity.
Qed.

Lemma RestsOk_blockBody abs blockIdx :
  RestsOk (fun st => blockBody abs st blockIdx).
Proof.
  unfold blockBody. destruct (abs !! blockIdx) as [block|];
    [|apply RestsOk_id].
  apply (RestsOk_comp
           (fun st => if Nat.eqb blockIdx 0
                      then push (countdownStep block) st else st)
           (fun st => fold_left _ _ st)).
  - apply Frames_if; framed.
  - framed.
  - intros k p. by destruct (Nat.eqb blockIdx 0), p as [[| |]|].
  - apply RestsOk_fold; intros a; [framed|apply RestsOk_setBody].
Qed.

Lemma restsFollowWork_lookup l :
  forall p, restsFollowWork p l = true ->
  forall (i : nat) r,
    l !! i = Some r -> kind r = REST ->
    (i = 0%nat /\ p = Some WORK)
    \/ exists (j : nat) w, i = S j /\ l !! j = Some w /\ kind w = WORK.
Proof.
  induction l as [|s l IH]; intros p Hok i r Hi Hr; [done|].
  destruct i as [|i].
  - injection Hi as ->. left. split; [done|].
    simpl in Hok. rewrite Hr in Hok. by destruct p as [[| |]|].
  - right. simpl in Hi.
    assert (Hok' : restsFollowWork (Some (kind s)) l = true).
    { simpl in Hok. by destruct (kind s), p as [[| |]|]. }
    destruct (IH _ Hok' i r Hi Hr) as [[-> Hs] | (j & w & -> & Hj & Hw)].
    + exists 0%nat, s. split; [done|]. split; [done|]. by injection Hs.
    + exists (S j), w. by repeat split.
Qed.

(** X7. Every REST step of the sequence comes right after a WORK step: the
    sequence never opens with a rest, and never rests after a COUNTDOWN or
    after another REST. *)
Theorem buildSteps_rest_follows_work :
  forall blocks skipWarmup (i : nat) r,
    buildSteps blocks skipWarmup !! i = Some r ->
    kind r = REST ->
    exists (j : nat) w,
      i = S j /\ buildSteps blocks skipWarmup !! j = Some w /\ kind w = WORK.
Proof.
  intros blocks skipWarmup i r Hi Hr.
  assert (Hok : restsFollowWork None (buildSteps blocks skipWarmup) = true).
  { unfold buildSteps.
    destruct (Nat.eqb (length (activeBlocksOf blocks skipWarmup)) 0); [done|].
    apply (RestsOk_fold (blockBody _)); intros a;
      [framed|apply RestsOk_blockBody]. }
  destruct (restsFollowWork_lookup _ _ Hok i r Hi Hr) as [[_ H]|H]; done.
Qed.

Lemma buildSteps_rest_follows_work_witness :
  let b := bareBlock "b" STANDARD (Some 2) None (Some 45) in
  exists (j : nat) w,
    2%nat = S j /\ buildSteps [b] false !! j = Some w /\ kind w = WORK.
Proof.
  cbv zeta.
  apply (buildSteps_rest_follows_work
           [bareBlock "b" STANDARD (Some 2) None (Some 45)] false 2%nat
           (restStep (bareBlock "b" STANDARD (Some 2) None (Some 45)) 2));
    reflexivity.
Defined.

End SequencerMore.

(** ** Further properties of the timing engine *)

Module TimingMore.
Import Player.

Lemma ceilDiv_mono (x y : Z) : x <= y -> ceilDiv x 1000 <= ceilDiv y 1000.
Proof.
  intros Hxy. unfold ceilDiv.
  assert (- y / 1000 <= - x / 1000) by (apply Z.div_le_mono; lia). lia.
Qed.

Lemma ceilDiv_nonneg (x : Z) : 0 <= x -> 0 <= ceilDiv x 1000.
Proof. intros Hx. change 0 with (ceilDiv 0 1000) at 1. by apply ceilDiv_mono. Qed.

(** X8. While a step runs, its displayed remaining seconds never go up as
    the clock advances, and never go below 0. *)
Theorem tickRemainingCeil_monotone :
  forall (p : State) (t1 t2 : Z),
    t1 <= t2 ->
    0 <= tickRemainingCeil t2 p <= tickRemainingCeil t1 p.
Proof.
  intros p t1 t2 Ht. unfold tickRemainingCeil, tickRemainingMs. split.
  - apply ceilDiv_nonneg. lia.
  - apply ceilDiv_mono. lia.
Qed.

Lemma tickRemainingCeil_monotone_witness :
  0 <= tickRemainingCeil 4500 runningPlayer
    <= tickRemainingCeil 3000 runningPlayer.
Proof. apply (tickRemainingCeil_monotone runningPlayer 3000 4500). lia. Defined.

(** X9. A tick advances by at most one step, however late it comes, and
    never changes the sequence.  While time remains on the current step it
    changes nothing but the two displayed values. *)
Theorem tick_advances_at_most_one_step :
  forall (now now' : Z) (p : State),
    steps (tick now now' p) = steps p
    /\ (currentStepIndex p <= currentStepIndex (tick now now' p)
        <= S (currentStepIndex p))%nat
    /\ (0 < tickRemainingMs now p ->
        tick now now' p =
          {| status := status p; steps := steps p;
             currentStepIndex := currentStepIndex p;
             stepRemaining := tickRemainingCeil now p;
             totalElapsed :=
               (totalAccumulatedRef p + (now - workoutStartedAtRef p)) / 1000;
             workoutStartedAtRef := workoutStartedAtRef p;
             totalAccumulatedRef := totalAccumulatedRef p;
             stepStartedAtRef := stepStartedAtRef p;
             stepOriginalDurationRef := stepOriginalDurationRef p;
             stepAccumulatedRef := stepAccumulatedRef p;
             finalElapsed := finalElapsed p |}
        /\ 0 < stepRemaining (tick now now' p)).
Proof.
  intros now now' p. unfold tick, goToNextStep, handleFinish. cbv zeta.
  destruct (Z.leb_spec (tickRemainingMs now p) 0) as [Hle|Hgt].
  - cbn [steps currentStepIndex].
    destruct (_ <=? _)%nat; [|destruct (_ !! _)];
      cbn [steps currentStepIndex]; repeat split; lia.
  - cbn [steps currentStepIndex stepRemaining].
    repeat split; try lia.
    unfold tickRemainingCeil.
    pose proof (TimingProps.ceilDiv_bounds (tickRemainingMs now p)). lia.
Qed.

Lemma tick_advances_at_most_one_step_witness :
  tick 3000 3001 runningPlayer =
    {| status := RUNNING; steps := []; currentStepIndex := 0;
       stepRemaining := 18; totalElapsed := 2;
       workoutStartedAtRef := 1000; totalAccumulatedRef := 0;
       stepStartedAtRef := 1000; stepOriginalDurationRef := 20;
       stepAccumulatedRef := 0; finalElapsed := None |}
  /\ 0 < stepRemaining (tick 3000 3001 runningPlayer).
Proof.
  destruct (tick_advances_at_most_one_step 3000 3001 runningPlayer)
    as (_ & _ & H).
  apply H. vm_compute. reflexivity.
Defined.

(** X10. A tick keeps the current step within the sequence.  When the time
    of the last step is up, the tick of a running player finishes the
    workout; the elapsed seconds handed to the finalize call are counted up
    to the clock read by [handleFinish], which comes after the read of the
    tick: they are never less than the total the same tick displays when
    the clock did not go back in between, and equal to it when both reads
    give the same time. *)
Theorem tick_in_range_and_finish :
  forall (now now' : Z) (p : State),
    indexInRange p ->
    indexInRange (tick now now' p)
    /\ (status p = RUNNING ->
        S (currentStepIndex p) = length (steps p) ->
        tickRemainingMs now p <= 0 ->
        status (tick now now' p) = FINISHED
        /\ finalElapsed (tick now now' p) =
             Some ((totalAccumulatedRef p + (now' - workoutStartedAtRef p))
                   / 1000)
        /\ totalElapsed (tick now now' p) =
             (totalAccumulatedRef p + (now - workoutStartedAtRef p)) / 1000
        /\ (now <= now' ->
            exists e, finalElapsed (tick now now' p) = Some e
                      /\ totalElapsed (tick now now' p) <= e)
        /\ (now' = now ->
            finalElapsed (tick now now' p) =
              Some (totalElapsed (tick now now' p)))).
Proof.
  intros now now' p Hin. unfold indexInRange in *. split.
  - unfold tick, goToNextStep, handleFinish. cbv zeta.
    destruct (_ <=? 0); [|done].
    cbn [steps currentStepIndex].
    destruct (Nat.leb_spec (length (steps p)) (S (currentStepIndex p)));
      [done|].
    destruct (_ !! _); cbn [steps currentStepIndex]; lia.
  - intros Hrun Hlast Hup.
    assert (Hfin : finalElapsed (tick now now' p) =
              Some ((totalAccumulatedRef p + (now' - workoutStartedAtRef p))
                    / 1000)
            /\ status (tick now now' p) = FINISHED).
    { unfold tick, goToNextStep, handleFinish. cbv zeta.
      destruct (Z.leb_spec (tickRemainingMs now p) 0); [|lia].
      cbn [steps currentStepIndex status].
      destruct (Nat.leb_spec (length (steps p)) (S (currentStepIndex p)));
        [|lia].
      cbn [status finalElapsed]. by rewrite Hrun. }
    destruct Hfin as [Hfin Hst].
    pose proof (TimingProps.tick_totalElapsed now now' p) as Htot.
    split; [exact Hst|]. split; [exact Hfin|]. split; [exact Htot|].
    split.
    + intros Hle. eexists. split; [exact Hfin|]. rewrite Htot.
      apply Z.div_le_mono; lia.
    + intros ->. by rewrite Hfin, Htot.
Qed.

Lemma tick_in_range_and_finish_witness :
  indexInRange (tick 4000 4999 endingPlayer)
  /\ status (tick 4000 4999 endingPlayer) = FINISHED
  /\ finalElapsed (tick 4000 4999 endingPlayer) =
       Some ((totalAccumulatedRef endingPlayer
              + (4999 - workoutStartedAtRef endingPlayer)) / 1000)
  /\ totalElapsed (tick 4000 4999 endingPlayer) =
       (totalAccumulatedRef endingPlayer
        + (4000 - workoutStartedAtRef endingPlayer)) / 1000
  /\ exists e, finalElapsed (tick 4000 4999 endingPlayer) = Some e
               /\ totalElapsed (tick 4000 4999 endingPlayer) <= e.
Proof.
  destruct (tick_in_range_and_finish 4000 4999 endingPlayer) as [Hin Hfin].
  { unfold indexInRange. simpl. lia. }
  destruct Hfin as (Hst & He & Ht & Hle & _);
    [reflexivity | reflexivity | vm_compute; discriminate |].
  split; [exact Hin|]. split; [exact Hst|]. split; [exact He|].
  split; [exact Ht|]. apply Hle. lia.
Defined.

(** X11. Finishing from the paused state does not count the time spent
    paused: after a start at [T] and a pause at [T + t1], the elapsed
    seconds handed to the finalize call are [floor (t1 / 1000)] whenever
    the workout is finished.  Finishing while running counts up to the
    moment of finishing. *)
Theorem finish_elapsed :
  forall (p0 : State) (T t1 tf : Z),
    finalElapsed (handleFinish tf (handlePause (T + t1) (handleStart T p0)))
      = Some (t1 / 1000)
    /\ finalElapsed (handleFinish (T + t1) (handleStart T p0))
      = Some (t1 / 1000).
Proof.
  intros p0 T t1 tf. unfold handleFinish. simpl. split; do 2 f_equal; lia.
Qed.

(** X12. Pausing and resuming conserves the time of the current step:
    after start at [T], pause at [T + t1], resume at [T + t1 + t2], the
    seconds remaining at [T + t1 + t2 + t3] are those of a step that has
    run for [t1 + t3] milliseconds, whatever [t2]. *)
Theorem pause_resume_step_conservation :
  forall (p0 : State) (T t1 t2 t3 : Z),
    let p1 := handleStart T p0 in
    let p3 := handleResume (T + t1 + t2) (handlePause (T + t1) p1) in
    tickRemainingCeil (T + t1 + t2 + t3) p3 =
      ceilDiv (Z.max 0 (stepOriginalDurationRef p1 * 1000 - (t1 + t3))) 1000
    /\ tickRemainingCeil (T + t1 + t2 + t3) p3 =
         tickRemainingCeil (T + t1 + t3) p1.
Proof.
  intros p0 T t1 t2 t3 p1 p3.
  unfold tickRemainingCeil, tickRemainingMs, p3, p1. simpl.
  split; do 3 f_equal; lia.
Qed.

End TimingMore.

(** ** Further properties of the session persistence store *)

Module StorageMore.
Import Storage StorageProps.

Lemma append_inj_r (s a b : string) : s +:+ a = s +:+ b -> a = b.
Proof. induction s as [|c s IH]; simpl; [done|]. intros [= H]. auto. Qed.

Lemma getStorageKey_inj a b : getStorageKey a = getStorageKey b -> a = b.
Proof. apply append_inj_r. Qed.

Lemma prefix_append (s t : string) : String.prefix s (s +:+ t) = true.
Proof.
  induction s as [|c s IH]; simpl; [by destruct t|].
  destruct (ascii_dec c c); [done|congruence].
Qed.

(** [loadWorkoutSession] reads the store through one key only, and either
    leaves the store alone or deletes that key. *)
Lemma load_decompose now sid (ls : gmap string StoredText) :
  loadWorkoutSession now sid ls =
    (fst (loadOutcome now (ls !! getStorageKey sid)),
     if snd (loadOutcome now (ls !! getStorageKey sid))
     then delete (getStorageKey sid) ls else ls).
Proof.
  unfold loadWorkoutSession, loadOutcome, clearWorkoutSession.
  destruct (ls !! getStorageKey sid) as [stored|]; [|done].
  destruct (emptyText stored); [done|].
  destruct (JSON_parse stored) as [parsed|]; [|done].
  destruct (invalidSession parsed) as [[|]|]; try done.
  destruct (getProp parsed "updatedAtMs") as [[[| |u| | |]|]|]; try done.
  by destruct (isSessionStale now u MAX_SESSION_AGE_MS).
Qed.

Lemma loadOutcome_deleted now entry :
  snd (loadOutcome now entry) = true -> fst (loadOutcome now entry) = None.
Proof.
  unfold loadOutcome.
  destruct entry as [stored|]; [|done].
  destruct (emptyText stored); [done|].
  destruct (JSON_parse stored) as [parsed|]; [|done].
  destruct (invalidSession parsed) as [[|]|]; try done.
  destruct (getProp parsed "updatedAtMs") as [[[| |u| | |]|]|]; try done.
  by destruct (isSessionStale now u MAX_SESSION_AGE_MS).
Qed.

(** X13. Loading is idempotent at a given time: a second load returns what
    the first returned and leaves the store as the first left it. *)
Theorem load_idempotent :
  forall (now : Z) (sid : string) (ls : gmap string StoredText),
    loadWorkoutSession now sid (snd (loadWorkoutSession now sid ls)) =
      loadWorkoutSession now sid ls.
Proof.
  intros now sid ls. rewrite (load_decompose now sid ls). cbn [snd].
  destruct (snd (loadOutcome now (ls !! getStorageKey sid))) eqn:Hdel.
  - rewrite load_decompose, lookup_delete_eq. cbn [loadOutcome fst snd].
    by rewrite (loadOutcome_deleted _ _ Hdel).
  - by rewrite load_decompose, Hdel.
Qed.

(** X14. Loading a session never adds an entry and never touches the entry
    of any other key. *)
Theorem load_touches_own_key_only :
  forall (now : Z) (sid : string) (ls : gmap string StoredText),
    snd (loadWorkoutSession now sid ls) ⊆ ls
    /\ forall k, k <> getStorageKey sid ->
                 snd (loadWorkoutSession now sid ls) !! k = ls !! k.
Proof.
  intros now sid ls. rewrite load_decompose. cbn [snd].
  destruct (snd (loadOutcome now (ls !! getStorageKey sid))).
  - split; [apply delete_subseteq|]. intros k Hk. by apply lookup_delete_ne.
  - by split.
Qed.

Lemma load_touches_own_key_only_witness :
  snd (loadWorkoutSession 20000 "s1"
         (saveWorkoutSession 16500 "s2" runningSample ∅))
    !! getStorageKey "s2"
  = saveWorkoutSession 16500 "s2" runningSample ∅ !! getStorageKey "s2".
Proof.
  destruct (load_touches_own_key_only 20000 "s1"
              (saveWorkoutSession 16500 "s2" runningSample ∅)) as [_ H].
  apply H. discriminate.
Defined.

(** X15. Sessions do not interfere: saving one session changes neither
    what loading another one returns, nor whether that load deletes its
    record. *)
Theorem save_load_other_session :
  forall (tSave tLoad : Z) (sid1 sid2 : string)
         (data : PersistedWorkoutSession) (ls : gmap string StoredText),
    sid1 <> sid2 ->
    fst (loadWorkoutSession tLoad sid2 (saveWorkoutSession tSave sid1 data ls))
      = fst (loadWorkoutSession tLoad sid2 ls)
    /\ snd (loadWorkoutSession tLoad sid2
              (saveWorkoutSession tSave sid1 data ls))
       = saveWorkoutSession tSave sid1 data
           (snd (loadWorkoutSession tLoad sid2 ls)).
Proof.
  intros tSave tLoad sid1 sid2 data ls Hne.
  assert (Hk : getStorageKey sid1 <> getStorageKey sid2)
    by (intros H; by apply getStorageKey_inj in H).
  rewrite !load_decompose. unfold saveWorkoutSession. cbn [fst snd].
  rewrite lookup_insert_ne by done. split; [done|].
  destruct (snd (loadOutcome tLoad (ls !! getStorageKey sid2))); [|done].
  by rewrite delete_insert_ne.
Qed.

Lemma save_load_other_session_witness :
  fst (loadWorkoutSession 20000 "s2"
         (saveWorkoutSession 16500 "s1" runningSample ∅))
    = fst (loadWorkoutSession 20000 "s2" ∅)
  /\ snd (loadWorkoutSession 20000 "s2"
            (saveWorkoutSession 16500 "s1" runningSample ∅))
     = saveWorkoutSession 16500 "s1" runningSample
         (snd (loadWorkoutSession 20000 "s2" ∅)).
Proof.
  apply (save_load_other_session 16500 20000 "s1" "s2" runningSample ∅).
  discriminate.
Defined.

(** X16. A saved session is abandoned once it is older than four hours: a
    load later than that returns [null] and deletes the record. *)
Theorem load_after_save_stale :
  forall (sid : string) (snapshot : PersistedWorkoutSession)
         (ls : gmap string StoredText) (tSave tLoad : Z),
    structurallyValid snapshot ->
    MAX_SESSION_AGE_MS < tLoad - tSave ->
    loadWorkoutSession tLoad sid (saveWorkoutSession tSave sid snapshot ls) =
      (None, clearWorkoutSession sid ls).
Proof.
  intros sid snapshot ls tSave tLoad Hvalid Hold.
  unfold saveWorkoutSession, JSON_stringify.
  rewrite (load_stale_cleared tLoad sid
             (toJson (withUpdatedAt snapshot tSave)) tSave).
  - unfold clearWorkoutSession. by rewrite delete_insert_eq.
  - apply lookup_insert_eq.
  - by apply toJson_valid.
  - apply toJson_updatedAt.
  - done.
Qed.

Lemma load_after_save_stale_witness :
  loadWorkoutSession 14416501 "s1"
    (saveWorkoutSession 16500 "s1" runningSample ∅) =
    (None, clearWorkoutSession "s1" ∅).
Proof.
  apply (load_after_save_stale "s1" runningSample ∅ 16500 14416501).
  - split; discriminate.
  - vm_compute. reflexivity.
Defined.

(** X17. A snapshot whose [sessionId] or [stepsSignature] is empty does not
    survive the round trip: the load that follows the save returns [null]
    and deletes the record, at any time. *)
Theorem load_after_save_rejected :
  forall (sid : string) (snapshot : PersistedWorkoutSession)
         (ls : gmap string StoredText) (tSave tLoad : Z),
    sessionId snapshot = "" \/ stepsSignature snapshot = "" ->
    loadWorkoutSession tLoad sid (saveWorkoutSession tSave sid snapshot ls) =
      (None, clearWorkoutSession sid ls).
Proof.
  intros sid snapshot ls tSave tLoad Hempty.
  unfold saveWorkoutSession, JSON_stringify.
  rewrite (load_invalid_cleared tLoad sid
             (toJson (withUpdatedAt snapshot tSave))).
  - unfold clearWorkoutSession. by rewrite delete_insert_eq.
  - apply lookup_insert_eq.
  - unfold toJson. rewrite invalidSession_obj.
    set (f := list_to_map _).
    assert (H1 : f !! "sessionId" = Some (JStr (sessionId snapshot)))
      by reflexivity.
    assert (H5 : f !! "stepsSignature" = Some (JStr (stepsSignature snapshot)))
      by reflexivity.
    rewrite H1, H5. cbn [falsy].
    destruct Hempty as [-> | ->]; cbn [String.eqb]; by rewrite ?orb_true_r.
Qed.

Lemma load_after_save_rejected_witness :
  loadWorkoutSession 20000 "s1"
    (saveWorkoutSession 16500 "s1" (withUpdatedAt
       {| sessionId := ""; status := RUNNING; currentStepIndex := 0;
          skipWarmup := false; stepsSignature := "warm_0_";
          workoutStartedAtMs := 0; totalAccumulatedMs := 0;
          stepStartedAtMs := 0; stepOriginalDurationSec := 3;
          stepAccumulatedMs := 0; updatedAtMs := 0 |} 0) ∅) =
    (None, clearWorkoutSession "s1" ∅).
Proof.
  apply load_after_save_rejected. by left.
Defined.

(** A structurally valid snapshot is returned by a load within four hours
    of its save. *)
Lemma load_saved_fresh sid snapshot (ls : gmap string StoredText) tSave tLoad :
  structurallyValid snapshot ->
  tLoad - tSave <= MAX_SESSION_AGE_MS ->
  loadWorkoutSession tLoad sid (saveWorkoutSession tSave sid snapshot ls) =
    (Some (toJson (withUpdatedAt snapshot tSave)),
     saveWorkoutSession tSave sid snapshot ls).
Proof.
  intros Hvalid Hfresh. rewrite load_decompose.
  unfold saveWorkoutSession, JSON_stringify. rewrite lookup_insert_eq.
  unfold loadOutcome. cbn [emptyText JSON_parse].
  rewrite toJson_valid by exact Hvalid. rewrite toJson_updatedAt.
  cbn [updatedAtMs withUpdatedAt]. unfold isSessionStale.
  by destruct (Z.ltb_spec MAX_SESSION_AGE_MS (tLoad - tSave)); [lia|].
Qed.

(** *** Maintenance *)

Lemma cleanup_lookup toNum now (ls : gmap string StoredText) k :
  cleanupStaleSessions toNum now ls !! k =
    match ls !! k with
    | Some stored =>
        if removedByCleanup toNum now k stored then None else Some stored
    | None => None
    end.
Proof.
  unfold cleanupStaleSessions.
  destruct (ls !! k) as [stored|] eqn:Hk.
  - destruct (removedByCleanup toNum now k stored) eqn:Hrem.
    + apply map_lookup_filter_None. right. intros x Hx.
      rewrite Hk in Hx. injection Hx as <-. simpl. by rewrite Hrem.
    + apply map_lookup_filter_Some. by split.
  - apply map_lookup_filter_None. by left.
Qed.

(** X18. Maintenance never removes a session that a load at the same time
    would return: such a session is returned just the same after
    [cleanupStaleSessions]. *)
Theorem cleanup_keeps_loadable :
  forall toNum (now : Z) (sid : string) (ls : gmap string StoredText) v,
    fst (loadWorkoutSession now sid ls) = Some v ->
    loadWorkoutSession now sid (cleanupStaleSessions toNum now ls) =
      (Some v, cleanupStaleSessions toNum now ls).
Proof.
  intros toNum now sid ls v Hload.
  destruct (loadWorkoutSession now sid ls) as [r ls'] eqn:Heq.
  simpl in Hload. subst r.
  pose proof Heq as Hdec. rewrite load_decompose in Hdec.
  apply load_returned_checked in Heq
    as (_ & Hls & Hvalid & u & Hu & Hfresh).
  assert (Hkeep : cleanupStaleSessions toNum now ls !! getStorageKey sid
                  = Some (JsonText v)).
  { rewrite cleanup_lookup, Hls.
    unfold removedByCleanup, staleText.
    cbn [JSON_parse emptyText]. rewrite Hu. cbn [toNumber].
    unfold isSessionStale.
    destruct (Z.ltb_spec MAX_SESSION_AGE_MS (now - u)); [lia|].
    by rewrite !andb_false_r. }
  rewrite load_decompose, Hkeep, <- Hls.
  injection Hdec as Hfst Hsnd. rewrite Hfst.
  destruct (snd (loadOutcome now (ls !! getStorageKey sid))) eqn:Hdel; [|done].
  apply loadOutcome_deleted in Hdel. by rewrite Hdel in Hfst.
Qed.

Lemma cleanup_keeps_loadable_witness :
  let ls := saveWorkoutSession 16500 "s1" runningSample ∅ in
  loadWorkoutSession 20000 "s1"
    (cleanupStaleSessions (fun _ => None) 20000 ls) =
    (Some (toJson (withUpdatedAt runningSample 16500)),
     cleanupStaleSessions (fun _ => None) 20000 ls).
Proof.
  cbv zeta. apply cleanup_keeps_loadable. reflexivity.
Defined.

(** X19. Maintenance removes the session records that do not parse and
    those saved more than four hours earlier; it never adds an entry and
    never touches an entry whose key lacks the session prefix. *)
Theorem cleanup_removes_and_spares :
  forall toNum (now : Z) (ls : gmap string StoredText),
    cleanupStaleSessions toNum now ls ⊆ ls
    /\ (forall k, String.prefix STORAGE_PREFIX k = false ->
                  cleanupStaleSessions toNum now ls !! k = ls !! k)
    /\ (forall sid raw,
          ls !! getStorageKey sid = Some (Unparseable raw) -> raw <> "" ->
          cleanupStaleSessions toNum now ls !! getStorageKey sid = None)
    /\ (forall sid data tSave ls0,
          ls = saveWorkoutSession tSave sid data ls0 ->
          MAX_SESSION_AGE_MS < now - tSave ->
          cleanupStaleSessions toNum now ls !! getStorageKey sid = None).
Proof.
  intros toNum now ls. split; [apply map_filter_subseteq|].
  split; [|split].
  - intros k Hk. rewrite cleanup_lookup.
    destruct (ls !! k) as [stored|]; [|done].
    unfold removedByCleanup. by rewrite Hk.
  - intros sid raw Hls Hraw. rewrite cleanup_lookup, Hls.
    unfold removedByCleanup, getStorageKey. rewrite prefix_append.
    cbn [emptyText staleText JSON_parse].
    by apply String.eqb_neq in Hraw as ->.
  - intros sid data tSave ls0 -> Hold. rewrite cleanup_lookup.
    unfold saveWorkoutSession, JSON_stringify. rewrite lookup_insert_eq.
    unfold removedByCleanup, getStorageKey. rewrite prefix_append.
    unfold staleText. cbn [emptyText JSON_parse].
    rewrite toJson_updatedAt. cbn [toNumber updatedAtMs withUpdatedAt].
    unfold isSessionStale.
    by destruct (Z.ltb_spec MAX_SESSION_AGE_MS (now - tSave)); [|lia].
Qed.

Lemma cleanup_removes_and_spares_witness :
  let ls := saveWorkoutSession 16500 "s1" runningSample ∅ in
  cleanupStaleSessions (fun _ => None) 14416501 ls !! getStorageKey "s1"
    = None.
Proof.
  cbv zeta.
  destruct (cleanup_removes_and_spares (fun _ => None) 14416501
              (saveWorkoutSession 16500 "s1" runningSample ∅))
    as (_ & _ & _ & H).
  apply (H "s1" runningSample 16500 ∅); [reflexivity|].
  vm_compute. reflexivity.
Defined.

(** *** The steps signature *)

Lemma append_sep_inj (c : ascii) (a b x y : string) :
  hasChar c a = false -> hasChar c b = false ->
  a +:+ String c x = b +:+ String c y -> a = b /\ x = y.
Proof.
  revert b. induction a as [|ca a IH]; intros [|cb b]; simpl.
  - intros _ _ [= ->]. done.
  - intros _ Hb [= <- _]. by rewrite Ascii.eqb_refl in Hb.
  - intros Ha _ [= -> _]. by rewrite Ascii.eqb_refl in Ha.
  - intros Ha Hb [= -> Heq].
    apply orb_false_elim in Ha as [_ Ha], Hb as [_ Hb].
    destruct (IH b Ha Hb Heq) as [-> ->]. done.
Qed.

Lemma pretty_N_char_no_underscore x :
  Ascii.eqb "_" (pretty_N_char x) = false.
Proof. unfold pretty_N_char. by repeat case_match. Qed.

Lemma pretty_N_go_no_underscore x s :
  hasChar "_" s = false -> hasChar "_" (pretty_N_go x s) = false.
Proof.
  revert s. induction (N.lt_wf_0 x) as [x _ IH]; intros s Hs.
  destruct (decide (0 < x)%N) as [Hx|Hx].
  - rewrite pretty_N_go_step by done. apply IH.
    + by apply N.div_lt.
    + cbn [hasChar]. by rewrite pretty_N_char_no_underscore.
  - assert (x = 0%N) as -> by lia. by rewrite pretty_N_go_0.
Qed.

Lemma pretty_nat_no_underscore (n : nat) : hasChar "_" (pretty n) = false.
Proof.
  unfold pretty, pretty_nat, pretty, pretty_N.
  case_decide; [done|]. by apply pretty_N_go_no_underscore.
Qed.

Lemma concat_comma_inj (l1 l2 : list string) :
  length l1 = length l2 -> commaFree l1 -> commaFree l2 ->
  String.concat "," l1 = String.concat "," l2 -> l1 = l2.
Proof.
  revert l2. induction l1 as [|a t1 IH]; intros [|b t2] Hlen H1 H2 Heq;
    try done.
  assert (Ha : hasChar "," a = false) by (apply H1; by left).
  assert (Hb : hasChar "," b = false) by (apply H2; by left).
  assert (Ht1 : commaFree t1) by (intros x Hx; apply H1; by right).
  assert (Ht2 : commaFree t2) by (intros x Hx; apply H2; by right).
  destruct t1 as [|a' t1], t2 as [|b' t2]; try done.
  - simpl in Heq. by subst.
  - cbn [String.concat] in Heq.
    change ("," +:+ ?z) with (String "," z) in Heq.
    destruct (append_sep_inj _ _ _ _ _ Ha Hb Heq) as [-> Hrest].
    f_equal. apply IH; auto.
Qed.

Lemma signature_inj :
  forall (ids1 ids2 : list string) (skip1 skip2 : bool),
    commaFree ids1 -> commaFree ids2 ->
    generateStepsSignature ids1 skip1 = generateStepsSignature ids2 skip2 ->
    ids1 = ids2 /\ skip1 = skip2.
Proof.
  intros ids1 ids2 skip1 skip2 H1 H2 Heq.
  unfold generateStepsSignature in Heq.
  assert (Hskip : skip1 = skip2)
    by (destruct skip1, skip2; cbn [String.append] in Heq;
        first [done | discriminate Heq]).
  subst skip2. split; [|done].
  assert (Hrest : pretty (length ids1) +:+ String "_" (String.concat "," ids1)
                  = pretty (length ids2) +:+ String "_" (String.concat "," ids2)).
  { destruct skip1; cbn [String.append] in Heq; by injection Heq. }
  apply append_sep_inj in Hrest as [Hlen Hcat];
    [|apply pretty_nat_no_underscore..].
  apply (inj pretty) in Hlen. by apply concat_comma_inj.
Qed.

(** X20. The steps signature tells routines apart: for block identifiers
    that hold no comma, two signatures are equal only when the lists of
    identifiers are the same and the warm-up choice is the same. *)
Theorem generateStepsSignature_inj :
  forall (ids1 ids2 : list string) (skip1 skip2 : bool),
    commaFree ids1 -> commaFree ids2 ->
    generateStepsSignature ids1 skip1 = generateStepsSignature ids2 skip2 ->
    ids1 = ids2 /\ skip1 = skip2.
Proof. exact signature_inj. Qed.

Lemma generateStepsSignature_inj_witness :
  ["b1"; "b2"] = ["b1"; "b2"] /\ true = true.
Proof.
  apply (generateStepsSignature_inj ["b1"; "b2"] ["b1"; "b2"] true true);
    [intros x Hx| intros x Hx| reflexivity];
    repeat (apply elem_of_cons in Hx as [-> | Hx]; [reflexivity|]);
    by apply elem_of_nil in Hx.
Defined.

Lemma generateStepsSignature_nonempty ids skip :
  generateStepsSignature ids skip <> "".
Proof. unfold generateStepsSignature. by destruct skip. Qed.

End StorageMore.

(** ** The player and its persisted session *)

Module PlayerStore.
Import Player.

Lemma persistedData_valid props now ov idx p :
  sessionId props <> "" ->
  Storage.structurallyValid (persistedData props now ov idx p).
Proof.
  intros Hsid. split; [done|]. apply StorageMore.generateStepsSignature_nonempty.
Qed.

Lemma persistedData_stamped props now ov idx p :
  Storage.withUpdatedAt (persistedData props now ov idx p) now =
    persistedData props now ov idx p.
Proof. reflexivity. Qed.

(** What the mount check reads from a persisted snapshot. *)
Lemma checkPersisted_saved props' props tSave tLoad ov idx p
    (ls : gmap string Storage.StoredText) :
  sessionId props <> "" ->
  sessionId props' = sessionId props ->
  tLoad - tSave <= Storage.MAX_SESSION_AGE_MS ->
  checkPersisted props' tLoad (persistCurrentState props tSave ov idx p ls) =
    if String.eqb
         (Storage.generateStepsSignature (blockIds props) (skipWarmup props))
         (Storage.generateStepsSignature (blockIds props') (skipWarmup props))
    then (Some (Storage.toJson (persistedData props tSave ov idx p)),
          persistCurrentState props tSave ov idx p ls)
    else (None,
          Storage.clearWorkoutSession (sessionId props)
            (persistCurrentState props tSave ov idx p ls)).
Proof.
  intros Hsid Hsame Hfresh. unfold checkPersisted, persistCurrentState.
  rewrite Hsame.
  rewrite StorageMore.load_saved_fresh
    by (done || by apply persistedData_valid).
  rewrite persistedData_stamped.
  set (data := persistedData props tSave ov idx p).
  assert (Hskip : Storage.getProp (Storage.toJson data) "skipWarmup" =
                  Storage.Normal (Some (Storage.JBool (skipWarmup props))))
    by reflexivity.
  assert (Hsig : Storage.getProp (Storage.toJson data) "stepsSignature" =
                 Storage.Normal (Some (Storage.JStr
                   (Storage.generateStepsSignature (blockIds props)
                      (skipWarmup props)))))
    by reflexivity.
  rewrite Hskip, Hsig. cbn [Storage.falsy].
  by destruct (skipWarmup props).
Qed.

(** X21. A snapshot the player persists is offered for rehydration by the
    check at mount, as long as the routine has the same block identifiers
    and no more than four hours have passed; the record stays in the
    store. *)
Theorem persisted_snapshot_offered :
  forall props' props (tSave tLoad : Z) ov idx (p : State)
         (ls : gmap string Storage.StoredText),
    sessionId props <> "" ->
    sessionId props' = sessionId props ->
    blockIds props' = blockIds props ->
    tLoad - tSave <= Storage.MAX_SESSION_AGE_MS ->
    checkPersisted props' tLoad (persistCurrentState props tSave ov idx p ls) =
      (Some (Storage.toJson (persistedData props tSave ov idx p)),
       persistCurrentState props tSave ov idx p ls)
    /\ Storage.fromJson (Storage.toJson (persistedData props tSave ov idx p)) =
         Some (persistedData props tSave ov idx p).
Proof.
  intros props' props tSave tLoad ov idx p ls Hsid Hsame Hids Hfresh.
  split; [|apply StorageProps.fromJson_toJson].
  rewrite checkPersisted_saved by done.
  by rewrite Hids, String.eqb_refl.
Qed.

Lemma persisted_snapshot_offered_witness :
  let ls := persistCurrentState sampleProps 3000 None None
              runningPlayer ∅ in
  checkPersisted sampleProps 20000 ls =
    (Some (Storage.toJson
             (persistedData sampleProps 3000 None None
                runningPlayer)), ls)
  /\ Storage.fromJson
       (Storage.toJson
          (persistedData sampleProps 3000 None None runningPlayer))
     = Some (persistedData sampleProps 3000 None None
               runningPlayer).
Proof.
  cbv zeta.
  apply (persisted_snapshot_offered sampleProps sampleProps 3000 20000);
    [discriminate|reflexivity|reflexivity|vm_compute; discriminate].
Defined.

(** X22. When the routine's blocks changed between the save and the mount
    (identifiers without commas), the check at mount offers nothing and
    deletes the persisted record. *)
Theorem changed_routine_discarded :
  forall props' props (tSave tLoad : Z) ov idx (p : State)
         (ls : gmap string Storage.StoredText),
    sessionId props <> "" ->
    sessionId props' = sessionId props ->
    Storage.commaFree (blockIds props) ->
    Storage.commaFree (blockIds props') ->
    blockIds props' <> blockIds props ->
    tLoad - tSave <= Storage.MAX_SESSION_AGE_MS ->
    checkPersisted props' tLoad (persistCurrentState props tSave ov idx p ls) =
      (None, Storage.clearWorkoutSession (sessionId props) ls).
Proof.
  intros props' props tSave tLoad ov idx p ls Hsid Hsame Hc Hc' Hids Hfresh.
  rewrite checkPersisted_saved by done.
  destruct (String.eqb_spec
              (Storage.generateStepsSignature (blockIds props)
                 (skipWarmup props))
              (Storage.generateStepsSignature (blockIds props')
                 (skipWarmup props))) as [Heq|Hne].
  - exfalso.
    apply StorageMore.signature_inj in Heq as [Heq _]; [|done..].
    apply Hids. by symmetry.
  - unfold persistCurrentState, Storage.saveWorkoutSession,
      Storage.clearWorkoutSession.
    by rewrite delete_insert_eq.
Qed.

Lemma changed_routine_discarded_witness :
  checkPersisted editedProps 20000
    (persistCurrentState sampleProps 3000 None None
       runningPlayer ∅) =
    (None, Storage.clearWorkoutSession (sessionId sampleProps) ∅).
Proof.
  apply (changed_routine_discarded editedProps sampleProps 3000 20000);
    [discriminate | reflexivity
    | intros x Hx | intros x Hx
    | discriminate | vm_compute; discriminate];
    repeat (apply elem_of_cons in Hx as [-> | Hx]; [reflexivity|]);
    by apply elem_of_nil in Hx.
Defined.



(** X24. Rehydration conserves time.  For a persisted index within the
    rebuilt sequence, the player comes back PAUSED on that step; once
    resumed at [r], a tick [d] milliseconds later reports the persisted
    accumulated total plus [d], and the remaining seconds of a step that
    has run for the persisted accumulated step time plus [d].  The time
    between the save, the rehydration and the resume counts for nothing,
    nor does the clock read [now'] that may follow in the tick. *)
Theorem rehydrate_conserves_time :
  forall props (now r d now' : Z)
         (persisted : Storage.PersistedWorkoutSession)
         (p : State) (ls : gmap string Storage.StoredText),
    0 <= Storage.currentStepIndex persisted
      < Z.of_nat (length (Sequencer.buildSteps (blocks props)
                            (Storage.skipWarmup persisted))) ->
    exists p' props',
      rehydrateFromPersisted props now persisted p ls =
        (Rehydrated p' props', ls)
      /\ status p' = PAUSED
      /\ Z.of_nat (currentStepIndex p') = Storage.currentStepIndex persisted
      /\ indexInRange p'
      /\ totalElapsed (tick (r + d) now' (handleResume r p')) =
           (Storage.totalAccumulatedMs persisted + d) / 1000
      /\ tickRemainingCeil (r + d) (handleResume r p') =
           ceilDiv
             (Z.max 0 (Storage.stepOriginalDurationSec persisted * 1000
                       - (Storage.stepAccumulatedMs persisted + d))) 1000.
Proof.
  intros props now r d now' persisted p ls [Hlo Hhi].
  unfold rehydrateFromPersisted.
  destruct (Z.leb_spec
              (Z.of_nat (length (Sequencer.buildSteps (blocks props)
                                   (Storage.skipWarmup persisted))))
              (Storage.currentStepIndex persisted)); [lia|].
  destruct (Z.ltb_spec (Storage.currentStepIndex persisted) 0); [lia|].
  eexists _, _. split; [reflexivity|].
  split; [done|]. split; [cbn [currentStepIndex]; lia|].
  split; [unfold indexInRange; cbn [currentStepIndex steps]; lia|].
  split.
  - rewrite TimingProps.tick_totalElapsed. simpl. f_equal. lia.
  - unfold tickRemainingCeil, tickRemainingMs. simpl. do 3 f_equal. lia.
Qed.

Lemma rehydrate_conserves_time_witness :
  exists p' props',
    rehydrateFromPersisted sampleProps 50000 Storage.pausedSample
      runningPlayer ∅ = (Rehydrated p' props', ∅)
    /\ status p' = PAUSED
    /\ Z.of_nat (currentStepIndex p') =
         Storage.currentStepIndex Storage.pausedSample
    /\ indexInRange p'
    /\ totalElapsed (tick (60000 + 2000) 62001 (handleResume 60000 p')) =
         (Storage.totalAccumulatedMs Storage.pausedSample + 2000) / 1000
    /\ tickRemainingCeil (60000 + 2000) (handleResume 60000 p') =
         ceilDiv
           (Z.max 0 (Storage.stepOriginalDurationSec Storage.pausedSample
                     * 1000
                     - (Storage.stepAccumulatedMs Storage.pausedSample
                        + 2000))) 1000.
Proof.
  apply (rehydrate_conserves_time sampleProps 50000 60000 2000 62001
           Storage.pausedSample runningPlayer ∅).
  vm_compute. split; [discriminate|reflexivity].
Defined.

(** X25. A persisted index at or beyond the end of the rebuilt sequence is
    refused and the persisted record deleted; after that, and after an
    abort, the check at mount finds nothing to offer. *)
Theorem refused_or_aborted_leaves_nothing :
  forall props (now tm : Z) (persisted : Storage.PersistedWorkoutSession)
         (p : State) (ls : gmap string Storage.StoredText),
    (Z.of_nat (length (Sequencer.buildSteps (blocks props)
                         (Storage.skipWarmup persisted)))
       <= Storage.currentStepIndex persisted ->
     fst (rehydrateFromPersisted props now persisted p ls) = Refused
     /\ fst (checkPersisted props tm
               (snd (rehydrateFromPersisted props now persisted p ls)))
        = None)
    /\ status (fst (handleAbort props p ls)) = ABORTED
    /\ checkPersisted props tm (snd (handleAbort props p ls)) =
         (None, snd (handleAbort props p ls)).
Proof.
  intros props now tm persisted p ls.
  assert (Hgone : forall ls0 : gmap string Storage.StoredText,
            checkPersisted props tm
              (Storage.clearWorkoutSession (sessionId props) ls0) =
            (None, Storage.clearWorkoutSession (sessionId props) ls0)).
  { intros ls0. unfold checkPersisted, Storage.clearWorkoutSession.
    by rewrite StorageProps.load_absent by apply lookup_delete_eq. }
  split; [|split; [done|apply Hgone]].
  intros Hout. unfold rehydrateFromPersisted.
  destruct (Z.leb_spec
              (Z.of_nat (length (Sequencer.buildSteps (blocks props)
                                   (Storage.skipWarmup persisted))))
              (Storage.currentStepIndex persisted)); [|lia].
  cbn [fst snd]. by rewrite Hgone.
Qed.

Lemma refused_or_aborted_leaves_nothing_witness :
  let props := {| sessionId := "s1"; blocks := []; skipWarmup := false |} in
  fst (rehydrateFromPersisted props 50000 Storage.pausedSample
         runningPlayer ∅) = Refused
  /\ fst (checkPersisted props 60000
            (snd (rehydrateFromPersisted props 50000 Storage.pausedSample
                    runningPlayer ∅))) = None.
Proof.
  cbv zeta.
  destruct (refused_or_aborted_leaves_nothing
              {| sessionId := "s1"; blocks := []; skipWarmup := false |}
              50000 60000 Storage.pausedSample runningPlayer ∅) as [H _].
  apply H. vm_compute. discriminate.
Defined.

End PlayerStore.

(** ** Further properties of the beep guard *)

Module AudioMore.
Import Audio.

Lemma run_app calls1 calls2 st :
  run (calls1 ++ calls2) st = run calls2 (run calls1 st).
Proof. unfold run. apply fold_left_app. Qed.

Lemma run_distinct keys st :
  NoDup keys -> lastBeepKey st ∉ keys ->
  world (run (map BeepOnce keys) st) = world st ++ keys.
Proof.
  revert st. induction keys as [|k keys IH]; intros st Hnd Hlast.
  - simpl. by rewrite app_nil_r.
  - apply NoDup_cons in Hnd as [Hk Hnd].
    apply not_elem_of_cons in Hlast as [Hne _].
    cbn [map run fold_left call]. fold (run (map BeepOnce keys)).
    unfold beepOnce at 1.
    assert (String.eqb k (lastBeepKey st) = false) as ->
      by (apply String.eqb_neq; congruence).
    rewrite IH by done. cbn [world]. unfold emit. by rewrite <- app_assoc.
Qed.

(** X26. When the keys of a run of [beepOnce] calls after a reset are all
    different and none is the empty string, every effect is invoked exactly
    once, in the order of the calls. *)
Theorem beepOnce_distinct_keys :
  forall (keys : list string) (st : AudioState (list string)),
    NoDup keys -> "" ∉ keys ->
    world (run (ResetBeepGuard :: map BeepOnce keys) st) = world st ++ keys
    /\ forall k, k ∈ keys ->
         invocations k (run (ResetBeepGuard :: map BeepOnce keys) st) =
           S (invocations k st).
Proof.
  intros keys st Hnd Hempty.
  assert (Hw : world (run (ResetBeepGuard :: map BeepOnce keys) st)
               = world st ++ keys)
    by (change (run (ResetBeepGuard :: ?c) st)
          with (run c (resetBeepGuard st)); by rewrite run_distinct).
  split; [exact Hw|]. intros k Hk. unfold invocations. rewrite Hw.
  rewrite count_occ_app.
  apply list_elem_of_In in Hk.
  assert (H1 : count_occ string_dec keys k = 1%nat)
    by (apply (proj1 (NoDup_count_occ' string_dec keys));
        [by apply NoDup_ListNoDup|done]).
  lia.
Qed.

Lemma beepOnce_distinct_keys_witness :
  let keys := ["countdown-0-3"; "countdown-0-2"; "countdown-0-1";
               "transition-work-1"] in
  world (run (ResetBeepGuard :: map BeepOnce keys) initial)
    = world initial ++ keys
  /\ forall k, k ∈ keys ->
       invocations k (run (ResetBeepGuard :: map BeepOnce keys) initial) =
         S (invocations k initial).
Proof.
  cbv zeta. apply beepOnce_distinct_keys; compute_done.
Defined.

Lemma Settled_beepOnce key st :
  Settled st -> Settled (call st (BeepOnce key)).
Proof.
  intros [Hadj Hlast]. unfold call, beepOnce.
  destruct (String.eqb_spec key (lastBeepKey st)) as [Heq|Hne]; [done|].
  split; cbn [world lastBeepKey]; unfold emit.
  - intros i a b Ha Hb.
    apply lookup_app_Some in Hb as [Hb|[Hlen Hb]].
    + apply (Hadj i); [|done].
      apply lookup_app_Some in Ha as [Ha|[Hlen _]]; [done|].
      apply lookup_lt_Some in Hb. lia.
    + apply list_lookup_singleton_Some in Hb as [Hi <-].
      assert (Hpos : i = pred (length (world st))) by lia.
      rewrite lookup_app_l in Ha by lia.
      destruct Hlast as [Hnil|Hlast].
      * rewrite Hnil in Ha. done.
      * rewrite last_lookup, <- Hpos, Ha in Hlast. congruence.
  - right. apply last_snoc.
Qed.

(** X27. Between resets the same cue is never invoked twice in a row:
    whatever keys [beepOnce] is called with after the module is loaded, no
    two consecutive invocations recorded carry the same key. *)
Theorem beepOnce_never_repeats :
  forall (keys : list string) (i : nat) a b,
    world (run (map BeepOnce keys) initial) !! i = Some a ->
    world (run (map BeepOnce keys) initial) !! S i = Some b ->
    a <> b.
Proof.
  intros keys.
  assert (Hs : Settled (run (map BeepOnce keys) initial)).
  { assert (H0 : Settled initial) by (split; [done|by left]).
    revert H0. generalize initial.
    induction keys as [|k keys IH]; intros st Hst; [done|].
    apply (IH (call st (BeepOnce k))). by apply Settled_beepOnce. }
  apply Hs.
Qed.

Lemma beepOnce_never_repeats_witness : "a" <> "b".
Proof.
  apply (beepOnce_never_repeats ["a"; "a"; "b"; "b"] 0%nat); reflexivity.
Defined.

End AudioMore.

(** ** Properties of the persisted preferences *)

Module PrefsProps.
Import Prefs.







End PrefsProps.

(** ** Further properties of the session label *)

Module LabelMore.
Import Label.

Lemma split_not_nil sep s : split sep s <> [].
Proof.
  destruct s as [|c s]; simpl; [done|].
  destruct (Ascii.eqb c sep); [done|]. by destruct (split sep s).
Qed.

Lemma concat_cons sep w (l : list string) :
  l <> [] -> String.concat sep (w :: l) = w +:+ sep +:+ String.concat sep l.
Proof. by destruct l. Qed.

(** Joining the pieces with the separator gives the string back. *)
Lemma concat_split sep s :
  String.concat (String sep "") (split sep s) = s.
Proof.
  induction s as [|c s IH]; [done|]. cbn [split].
  pose proof (split_not_nil sep s) as Hnil.
  destruct (Ascii.eqb_spec c sep) as [->|Hne].
  - rewrite concat_cons by done. rewrite IH. reflexivity.
  - destruct (split sep s) as [|w ws]; [done|].
    destruct ws as [|w' ws].
    + cbn [String.concat] in *. by rewrite IH.
    + rewrite concat_cons in IH by done. rewrite concat_cons by done.
      rewrite <- IH. reflexivity.
Qed.

Lemma length_append (a b : string) :
  String.length (a +:+ b) = (String.length a + String.length b)%nat.
Proof. induction a as [|c a IH]; simpl; [done|]. by rewrite IH. Qed.

Lemma hasChar_app c a b :
  Storage.hasChar c (a +:+ b) = Storage.hasChar c a || Storage.hasChar c b.
Proof.
  induction a as [|x a IH]; simpl; [done|]. by rewrite IH, orb_assoc.
Qed.

Lemma split_pieces_clean sep s w :
  w ∈ split sep s -> Storage.hasChar sep w = false.
Proof.
  revert w. induction s as [|c s IH]; intros w; simpl.
  - intros Hw. by apply list_elem_of_singleton in Hw as ->.
  - destruct (Ascii.eqb_spec c sep) as [->|Hne].
    + intros Hw. apply elem_of_cons in Hw as [->|Hw]; [done|by apply IH].
    + pose proof (split_not_nil sep s) as Hnil.
      destruct (split sep s) as [|w0 ws]; [done|].
      intros Hw. apply elem_of_cons in Hw as [->|Hw].
      * simpl. rewrite IH by (by left).
        destruct (Ascii.eqb_spec sep c); [congruence|done].
      * apply IH. by right.
Qed.

Lemma toUpperCase_not_underscore c :
  Ascii.eqb "_" c = false -> Ascii.eqb "_" (toUpperCase c) = false.
Proof.
  destruct c as [[] [] [] [] [] [] [] []]; vm_compute; done.
Qed.

Lemma capitalize_clean w :
  Storage.hasChar "_" w = false -> Storage.hasChar "_" (capitalize w) = false.
Proof.
  destruct w as [|c w]; [done|]. cbn [capitalize Storage.hasChar].
  intros H. apply orb_false_elim in H as [Hc Hw].
  by rewrite (toUpperCase_not_underscore c Hc), Hw.
Qed.

Lemma capitalize_length w : String.length (capitalize w) = String.length w.
Proof. by destruct w. Qed.

Lemma concat_clean (l : list string) :
  (forall w, w ∈ l -> Storage.hasChar "_" w = false) ->
  Storage.hasChar "_" (String.concat " " l) = false.
Proof.
  induction l as [|w l IH]; intros Hl; [done|].
  assert (Hw : Storage.hasChar "_" w = false) by (apply Hl; by left).
  assert (Hrest : Storage.hasChar "_" (String.concat " " l) = false)
    by (apply IH; intros x Hx; apply Hl; by right).
  destruct l as [|w' l]; [done|].
  rewrite concat_cons by done. rewrite !hasChar_app, Hw, Hrest. done.
Qed.

Lemma concat_length (f : string -> string) (l : list string) :
  (forall w, String.length (f w) = String.length w) ->
  String.length (String.concat " " (map f l)) =
    String.length (String.concat "_" l).
Proof.
  intros Hf. induction l as [|w l IH]; [done|].
  destruct l as [|w' l]; [apply Hf|].
  cbn [map]. cbn [map] in IH.
  rewrite (concat_cons " " (f w) (f w' :: map f l)) by done.
  rewrite (concat_cons "_" w (w' :: l)) by done.
  rewrite !length_append, IH, Hf. reflexivity.
Qed.

(** X30. For an ASCII day key, the formatted day key is as long as the
    day key and holds no underscore: each underscore became a space and
    every other position holds the character of the key or its upper
    case. *)
Theorem formatDay_shape :
  forall dayKey : string,
    isAscii dayKey = true ->
    String.length (formatDay dayKey) = String.length dayKey
    /\ Storage.hasChar "_" (formatDay dayKey) = false.
Proof.
  intros dayKey _. unfold formatDay. split.
  - rewrite (concat_length capitalize) by apply capitalize_length.
    by rewrite concat_split.
  - apply concat_clean. intros w Hw.
    apply list_elem_of_fmap in Hw as [w0 [-> Hw0]].
    apply capitalize_clean. by apply (split_pieces_clean "_" dayKey).
Qed.

Lemma formatDay_shape_witness :
  String.length (formatDay "upper_a") = String.length "upper_a"
  /\ Storage.hasChar "_" (formatDay "upper_a") = false.
Proof. apply (formatDay_shape "upper_a"). reflexivity. Defined.

End LabelMore.
